(** * Symmetric meshes and the symmetry-matched assembly of influence matrices

    A shallow embedding of [capytaine/symmetries.py]: the three classes of
    symmetric meshes ([ReflectionSymmetry], [TranslationalSymmetry],
    [AxialSymmetry]) and the decorator [use_symmetries], whose inner function
    [build_matrices_with_symmetries] dispatches on the classes of two meshes.

    Conventions of the embedding.
    - A Python float is a rational number of [Q]: the arithmetic is exact,
      and there is neither an infinity nor a value that is not a number.  A
      statement that depends on how two floats compare takes the outcome
      of the comparison as a hypothesis.
    - An angle is stored as its coefficient of pi, so that the Python value
      [2*i*np.pi/(n+1)] is the rational [2*i/(n+1)].
    - The geometric primitives of the external mesh library (mirror,
      translate, rotate_z, merge_duplicates, heal_triangles, [+]) are not
      interpreted: a geometry is the term that records which primitives were
      applied, in which order and with which arguments.
    - Every Python object carries the identity that the operator [is]
      compares; creating an object takes a fresh identity from a counter. *)

From Stdlib Require Import List ZArith QArith Qabs String Bool Arith Lia DecimalString.
Import ListNotations.

#[local] Set Warnings "-register-all".

Local Open Scope string_scope.
Local Open Scope Z_scope.

(** ** Exceptions and outcomes *)

(** A raised exception is identified by the name of its class. *)
Definition exception := string.

Definition AssertionError : exception := "AssertionError".
Definition IndexError : exception := "IndexError".
Definition ZeroDivisionError : exception := "ZeroDivisionError".
Definition RecursionError : exception := "RecursionError".

Inductive outcome (A : Type) : Type :=
| Return (a : A)
| Raise (e : exception).

Arguments Return {A} a.
Arguments Raise {A} e.

Definition obind {A B : Type} (o : outcome A) (f : A -> outcome B) : outcome B :=
  match o with
  | Return a => f a
  | Raise e => Raise e
  end.

(** [l[i]] on a Python sequence, for a non-negative index. *)
Definition getitem {A : Type} (l : list A) (i : nat) : outcome A :=
  match nth_error l i with
  | Some a => Return a
  | None => Raise IndexError
  end.

(** ** Numbers, arrays, planes *)

(** A Python number: [isinstance(x, int)] holds of [Int] only. *)
Inductive number : Type :=
| Int (z : Z)
| Float (q : Q).

(** A one-dimensional array is the list of its entries; a two-dimensional one
    carries its shape beside its entries in row-major order. *)
Record ndarray : Type := mk_ndarray { shape : list nat; data : list Q }.

Definition scale (k : Q) (v : list Q) : list Q := map (Qmult k) v.
Definition neg (v : list Q) : list Q := map Qopp v.

(** [np.allclose(a, b)] with its default tolerances:
    [|a - b| <= atol + rtol * |b|] entry by entry.  Over the rationals a
    vector is always close to itself; a float that is not a number is not,
    and no theorem below relies on it for a vector that is not given. *)
Definition rtol : Q := 1 # 100000.
Definition atol : Q := 1 # 100000000.

Definition isclose (a b : Q) : bool :=
  Qle_bool (Qabs (a - b)) (atol + rtol * Qabs b).

Fixpoint allclose (a b : list Q) : bool :=
  match a, b with
  | [], [] => true
  | x :: a', y :: b' => isclose x y && allclose a' b'
  | _, _ => false
  end.

(** The plane of the external geometry library: a normal and an offset. *)
Record Plane : Type := mk_Plane { plane_id : nat; normal : list Q; c : Q }.

(** ** Geometries and meshes *)

Inductive transform : Type :=
| mirror (plane : Plane)
| translate (vector : list Q)
| rotate_z (angle : Q)
| merge_duplicates
| heal_triangles.

Inductive geometry : Type :=
| from_arrays (v : vertices) (faces : list (list nat))
| moved (t : transform) (g : geometry)
| added (g1 g2 : geometry)
with vertices : Type :=
| array (a : ndarray)
| concatenate (a b : vertices)
| vertices_of (g : geometry).

(** The class of a collection, with the attribute the class adds. *)
Inductive class : Type :=
| CollectionOfMeshes
| ReflectionSymmetry (plane : Plane)
| TranslationalSymmetry (translation : list Q)
| AxialSymmetry (point_on_rotation_axis : list Q).

Inductive mesh : Type :=
| Mesh (id : nat) (name : string) (g : geometry)
| Collection (id : nat) (name : string) (cls : class) (submeshes : list mesh).

Definition id_of (m : mesh) : nat :=
  match m with
  | Mesh i _ _ => i
  | Collection i _ _ _ => i
  end.

Definition name_of (m : mesh) : string :=
  match m with
  | Mesh _ n _ => n
  | Collection _ n _ _ => n
  end.

Definition set_name (n : string) (m : mesh) : mesh :=
  match m with
  | Mesh i _ g => Mesh i n g
  | Collection i _ k l => Collection i n k l
  end.

Definition submeshes (m : mesh) : list mesh :=
  match m with
  | Mesh _ _ _ => []
  | Collection _ _ _ l => l
  end.

(** Modelled from the spec: the property [nb_submeshes] of the class
    CollectionOfMeshes, the number of sub-meshes of the collection. *)
Definition nb_submeshes (m : mesh) : nat := List.length (submeshes m).

(** [mesh1 is mesh2]. *)
Definition is_ (mesh1 mesh2 : mesh) : bool := Nat.eqb (id_of mesh1) (id_of mesh2).

(** Modelled from the spec: the methods mirror, translate and rotate_z of a
    collection of meshes, which transform the collection in place.  Every
    sub-mesh is moved, down to the meshes of the external library, and every
    object keeps its identity. *)
Fixpoint apply (t : transform) (m : mesh) : mesh :=
  match m with
  | Mesh i n g => Mesh i n (moved t g)
  | Collection i n k l => Collection i n k (map (apply t) l)
  end.

(** ** Creation of objects *)

(** A computation that creates objects threads the next free identity. *)
Definition alloc (A : Type) : Type := nat -> outcome (A * nat).

Definition ret {A : Type} (a : A) : alloc A := fun next => Return (a, next).

Definition bind {A B : Type} (x : alloc A) (f : A -> alloc B) : alloc B :=
  fun next =>
    match x next with
    | Return (a, next') => f a next'
    | Raise e => Raise e
    end.

Definition raise {A : Type} (e : exception) : alloc A := fun _ => Raise e.

Definition fresh : alloc nat := fun next => Return (next, S next).

Definition assert (b : bool) : alloc unit :=
  if b then ret tt else raise AssertionError.

Definition lift {A : Type} (o : outcome A) : alloc A :=
  fun next =>
    match o with
    | Return a => Return (a, next)
    | Raise e => Raise e
    end.

Declare Scope alloc_scope.
Delimit Scope alloc_scope with alloc.
Notation "x <- e ;; k" := (bind e (fun x => k))
  (at level 61, e at next level, right associativity) : alloc_scope.
Notation "e ;;; k" := (bind e (fun _ => k))
  (at level 61, right associativity) : alloc_scope.
Local Open Scope alloc_scope.

(** Modelled from the spec: the method [copy] of a mesh or of a collection of
    meshes, a deep copy.  Every object of the copy is a new object. *)
Fixpoint copy_from (m : mesh) (next : nat) : mesh * nat :=
  match m with
  | Mesh _ n g => (Mesh next n g, S next)
  | Collection _ n k l =>
      let fix copy_all (l : list mesh) (next : nat) : list mesh * nat :=
        match l with
        | [] => ([], next)
        | s :: r =>
            let (s', next1) := copy_from s next in
            let (r', next2) := copy_all r next1 in
            (s' :: r', next2)
        end in
      let (l', next') := copy_all l (S next) in
      (Collection next n k l', next')
  end.

Definition copy (m : mesh) : alloc mesh := fun next => Return (copy_from m next).

(** The decimal notation of a number, as an f-string prints it. *)
Definition str (i : nat) : string := NilEmpty.string_of_uint (Nat.to_uint i).

(** A [for] loop that appends one new object per iteration. *)
Fixpoint for_each {A B : Type} (l : list A) (body : A -> alloc B) : alloc (list B) :=
  match l with
  | [] => ret []
  | x :: r => y <- body x ;; ys <- for_each r body ;; ret (y :: ys)
  end.

Definition z_of (v : list Q) : alloc Q := lift (getitem v 2).

Section Constructors.

(** [CollectionOfMeshes.format_name], which the source file does not
    define: it receives the object and a string of options. *)
Variable format_name : mesh -> string -> string.

Definition default_name (self : mesh) (base : string) (name : option string) : mesh :=
  match name with
  | None => set_name (format_name self base) self
  | Some n => set_name n self
  end.

(** [ReflectionSymmetry.__init__(self, half, plane, name=None)] *)
Definition ReflectionSymmetry_init (half : mesh) (plane : Plane)
    (name : option string) : alloc mesh :=
  self <- fresh ;;
  nz <- z_of (normal plane) ;;
  assert (Qeq_bool nz 0) ;;;
  other_half <- copy half ;;
  let other_half := apply (mirror plane) other_half in
  let other_half := set_name ("mirror_of_" ++ name_of half) other_half in
  let self := Collection self EmptyString (ReflectionSymmetry plane) [half; other_half] in
  ret (default_name self (name_of half) name).

(** [TranslationalSymmetry.__init__(self, mesh_slice, translation,
    nb_repetitions=1, name=None)] *)
Definition TranslationalSymmetry_init (mesh_slice : mesh) (translation : list Q)
    (nb_repetitions : number) (name : option string) : alloc mesh :=
  self <- fresh ;;
  match nb_repetitions with
  | Float _ => raise AssertionError
  | Int nb =>
      assert (1 <=? nb) ;;;
      assert (Nat.eqb (List.length translation) 3) ;;;
      tz <- z_of translation ;;
      assert (Qeq_bool tz 0) ;;;
      copies <- for_each (seq 1 (Z.to_nat nb)) (fun i =>
        new_slice <- copy mesh_slice ;;
        let new_slice :=
          set_name ("repetition_" ++ str i ++ "_of_" ++ name_of mesh_slice) new_slice in
        ret (apply (translate (scale (inject_Z (Z.of_nat i)) translation)) new_slice)) ;;
      let slices := mesh_slice :: copies in
      let self := Collection self EmptyString (TranslationalSymmetry translation) slices in
      ret (default_name self (name_of mesh_slice) name)
  end.

(** [AxialSymmetry.__init__(self, mesh_slice,
    point_on_rotation_axis=np.zeros(3), nb_repetitions=1, name=None)] *)
Definition AxialSymmetry_init (mesh_slice : mesh) (point_on_rotation_axis : list Q)
    (nb_repetitions : number) (name : option string) : alloc mesh :=
  self <- fresh ;;
  match nb_repetitions with
  | Float _ => raise AssertionError
  | Int nb =>
      assert (1 <=? nb) ;;;
      assert (Nat.eqb (List.length point_on_rotation_axis) 3) ;;;
      copies <- for_each (seq 1 (Z.to_nat nb)) (fun i =>
        new_slice <- copy mesh_slice ;;
        let new_slice :=
          set_name ("rotation_" ++ str i ++ "_of_" ++ name_of mesh_slice) new_slice in
        let new_slice := apply (translate (neg point_on_rotation_axis)) new_slice in
        let new_slice :=
          apply (rotate_z (inject_Z (2 * Z.of_nat i) / inject_Z (nb + 1))) new_slice in
        ret (apply (translate point_on_rotation_axis) new_slice)) ;;
      let slices := mesh_slice :: copies in
      let self := Collection self EmptyString (AxialSymmetry point_on_rotation_axis) slices in
      ret (default_name self (name_of mesh_slice) name)
  end.

(** Modelled from the spec: the method [merge] of the mesh collaborator,
    which turns a collection into one mesh holding all its panels, and the
    operator [+] of two meshes, their union.  Both create a new object;
    a mesh that is not a collection is its own merge. *)
Definition mesh_add (m1 m2 : mesh) : alloc mesh :=
  match m1, m2 with
  | Mesh _ n g1, Mesh _ _ g2 => i <- fresh ;; ret (Mesh i n (added g1 g2))
  | _, _ => raise "TypeError"
  end.

Fixpoint mesh_sum (l : list mesh) (start : mesh) : alloc mesh :=
  match l with
  | [] => ret start
  | m :: r => s <- mesh_add start m ;; mesh_sum r s
  end.

Fixpoint merge (m : mesh) : alloc mesh :=
  match m with
  | Mesh _ _ _ => ret m
  | Collection _ n _ l =>
      let fix merge_all (l : list mesh) : alloc (list mesh) :=
        match l with
        | [] => ret []
        | s :: r => s' <- merge s ;; r' <- merge_all r ;; ret (s' :: r')
        end in
      parts <- merge_all l ;;
      match parts with
      | [] => i <- fresh ;; ret (Mesh i n (from_arrays (array (mk_ndarray [0%nat; 3%nat] [])) []))
      | p :: r => mesh_sum r p
      end
  end.

Definition isinstance_TranslationalSymmetry (m : mesh) : bool :=
  match m with
  | Collection _ _ (TranslationalSymmetry _) _ => true
  | _ => false
  end.

(** The attribute [translation]; reading it from an object of another class
    raises AttributeError. *)
Definition translation_of (m : mesh) : outcome (list Q) :=
  match m with
  | Collection _ _ (TranslationalSymmetry t) _ => Return t
  | _ => Raise "AttributeError"
  end.

(** [all([test(meshes[0], mesh) for mesh in meshes[1:]])]: [meshes[0]] is
    read once per element of [meshes[1:]]. *)
Definition all_against_first (test : mesh -> mesh -> outcome bool)
    (meshes : list mesh) : alloc bool :=
  tests <- for_each (tl meshes) (fun mesh =>
    first <- lift (getitem meshes 0) ;; lift (test first mesh)) ;;
  ret (forallb (fun b => b) tests).

(** [TranslationalSymmetry.join], applied to the tuple [meshes]. *)
Definition TranslationalSymmetry_join (meshes : list mesh) : alloc mesh :=
  assert (forallb isinstance_TranslationalSymmetry meshes) ;;;
  close <- all_against_first (fun first mesh =>
    obind (translation_of first) (fun t0 =>
    obind (translation_of mesh) (fun t => Return (allclose t0 t)))) meshes ;;
  assert close ;;;
  same <- all_against_first (fun first mesh =>
    Return (Nat.eqb (List.length (submeshes first)) (List.length (submeshes mesh)))) meshes ;;
  assert same ;;;
  others <- for_each (tl meshes) (fun mesh =>
    s <- lift (getitem (submeshes mesh) 0) ;; merge s) ;;
  first <- lift (getitem meshes 0) ;;
  s0 <- lift (getitem (submeshes first) 0) ;;
  start <- merge s0 ;;
  mesh_slice <- mesh_sum others start ;;
  first <- lift (getitem meshes 0) ;;
  t <- lift (translation_of first) ;;
  first <- lift (getitem meshes 0) ;;
  TranslationalSymmetry_init mesh_slice t
    (Int (Z.of_nat (List.length (submeshes first)))) None.

(** The argument [profile] of [from_profile]: a function of the height, or
    an array of points. *)
Inductive profile_arg : Type :=
| function (f : Q -> Q)
| points (a : ndarray).

(** The array of the points of the profile: the points [f(z), 0, z] for z in
    [z_range] when the profile is a function, the array itself otherwise. *)
Definition profile_array_of (profile : profile_arg) (z_range : list Q) : ndarray :=
  match profile with
  | function f =>
      mk_ndarray [List.length z_range; 3%nat] (flat_map (fun z => [f z; 0%Q; z]) z_range)
  | points a => a
  end.

Definition sub1 (x : number) : number :=
  match x with
  | Int z => Int (z - 1)
  | Float q => Float (q - 1)
  end.

(** [2 * np.pi / nphi], as a coefficient of pi. *)
Definition slice_angle (nphi : number) : outcome Q :=
  match nphi with
  | Int z => if z =? 0 then Raise ZeroDivisionError else Return (2 / inject_Z z)%Q
  | Float q => if Qeq_bool q 0 then Raise ZeroDivisionError else Return (2 / q)%Q
  end.

(** [AxialSymmetry.from_profile(profile, z_range, point_on_rotation_axis,
    nphi, name)].  The mesh [rotated_profile] is a new object of which only
    the vertices are read. *)
Definition AxialSymmetry_from_profile (profile : profile_arg) (z_range : list Q)
    (point_on_rotation_axis : list Q) (nphi : number) (name : option string)
    : alloc mesh :=
  let name := match name with None => "axisymmetric_mesh" | Some n => n end in
  let profile_array := profile_array_of profile z_range in
  assert (Nat.eqb (List.length (shape profile_array)) 2) ;;;
  d1 <- lift (getitem (shape profile_array) 1) ;;
  assert (Nat.eqb d1 3) ;;;
  n <- lift (getitem (shape profile_array) 0) ;;
  angle <- lift (slice_angle nphi) ;;
  i <- fresh ;;
  let rotated_profile :=
    moved (rotate_z angle) (from_arrays (array profile_array) []) in
  let nodes_slice := concatenate (array profile_array) (vertices_of rotated_profile) in
  let faces_slice :=
    map (fun i => [i; i + n; i + n + 1; i + 1])%nat (seq 0 (n - 1)) in
  j <- fresh ;;
  let body_slice :=
    Mesh j ("slice_of_" ++ name ++ "_mesh") (from_arrays nodes_slice faces_slice) in
  let body_slice := apply merge_duplicates body_slice in
  let body_slice := apply heal_triangles body_slice in
  AxialSymmetry_init body_slice point_on_rotation_axis (sub1 nphi) (Some name).

End Constructors.

(** ** The assembly of the influence matrices *)

Definition isinstance_ReflectionSymmetry (m : mesh) : bool :=
  match m with
  | Collection _ _ (ReflectionSymmetry _) _ => true
  | _ => false
  end.

Definition isinstance_AxialSymmetry (m : mesh) : bool :=
  match m with
  | Collection _ _ (AxialSymmetry _) _ => true
  | _ => false
  end.

Local Open Scope list_scope.

Section Assembler.

(** What the decorated function receives and returns is not inspected:
    the solver, the extra arguments and the two matrices it computes. *)
Variables Solver Args Coefficients : Type.

(** The operator [==] of the class of planes. *)
Variable Plane_eq : Plane -> Plane -> bool.

(** The decorated function [build_matrices]. *)
Variable build_matrices : Solver -> mesh -> mesh -> Args -> Coefficients * Coefficients.

(** A matrix is what [build_matrices] computed, or a block matrix built
    from a list of matrices.  The classes BlockToeplitzMatrix and
    BlockCirculantMatrix are imported by the source file, not defined by it:
    their constructors are the constructors of the type, which record the
    arguments.  What the classes check of the shapes of the blocks is not
    modelled: where the function returns a block matrix here, the Python
    function has computed these blocks and passed them to the constructor
    of the class. *)
Inductive matrix : Type :=
| Evaluated (c : Coefficients)
| BlockToeplitzMatrix (blocks : list matrix)
| BlockCirculantMatrix (blocks : list matrix) (size : nat).

(** One activation of [build_matrices_with_symmetries] is a tree: it ends
    with a value or an exception, or calls the function itself on two
    meshes and goes on with the pair of matrices it gets back.  The solver
    and the extra arguments are passed on unchanged; [_rec_depth] only
    feeds the log, which is left out. *)
Inductive activation (A : Type) : Type :=
| Done (a : A)
| Throw (e : exception)
| Recurse (mesh1 mesh2 : mesh) (k : matrix * matrix -> activation A).

Arguments Done {A} a.
Arguments Throw {A} e.
Arguments Recurse {A} mesh1 mesh2 k.

Fixpoint andthen {A B : Type} (p : activation A) (f : A -> activation B) : activation B :=
  match p with
  | Done a => f a
  | Throw e => Throw e
  | Recurse m1 m2 k => Recurse m1 m2 (fun r => andthen (k r) f)
  end.

Definition item (l : list mesh) (i : nat) : activation mesh :=
  match getitem l i with
  | Return m => Done m
  | Raise e => Throw e
  end.

(** The conditions of the three [if] and [elif]. *)
Definition mirror_test (mesh1 mesh2 : mesh) : bool :=
  match mesh1, mesh2 with
  | Collection _ _ (ReflectionSymmetry plane1) _,
    Collection _ _ (ReflectionSymmetry plane2) _ => Plane_eq plane1 plane2
  | _, _ => false
  end.

Definition translation_test (mesh1 mesh2 : mesh) : bool :=
  match mesh1, mesh2 with
  | Collection _ _ (TranslationalSymmetry translation1) _,
    Collection _ _ (TranslationalSymmetry translation2) _ =>
      allclose translation1 translation2
      && Nat.eqb (nb_submeshes mesh1) (nb_submeshes mesh2)
  | _, _ => false
  end.

Definition rotation_test (mesh1 mesh2 : mesh) : bool :=
  match mesh1 with
  | Collection _ _ (AxialSymmetry _) _ => is_ mesh1 mesh2
  | _ => false
  end.

(** The branch of the [if], [elif], [elif], [else] that is taken. *)
Inductive branch : Type :=
| mirror_symmetry
| translational_symmetry
| rotation_symmetry
| evaluation.

Definition dispatch (mesh1 mesh2 : mesh) : branch :=
  if mirror_test mesh1 mesh2 then mirror_symmetry
  else if translation_test mesh1 mesh2 then translational_symmetry
  else if rotation_test mesh1 mesh2 then rotation_symmetry
  else evaluation.

(** [for subbody in subbodies: S, V = recursive call;
    S_list.append(S); V_list.append(V)] *)
Fixpoint collect (mesh1 : mesh) (subbodies : list mesh) (S_list V_list : list matrix)
    : activation (list matrix * list matrix) :=
  match subbodies with
  | [] => Done (S_list, V_list)
  | subbody :: rest =>
      andthen (item (submeshes mesh1) 0) (fun first =>
      Recurse first subbody (fun '(S_i, V_i) =>
      collect mesh1 rest (S_list ++ [S_i]) (V_list ++ [V_i])))
  end.

Definition evaluated (r : Coefficients * Coefficients) : matrix * matrix :=
  (Evaluated (fst r), Evaluated (snd r)).

(** The body of [build_matrices_with_symmetries(solver, mesh1, mesh2, *args)]. *)
Definition body (solver : Solver) (mesh1 mesh2 : mesh) (args : Args)
    : activation (matrix * matrix) :=
  match dispatch mesh1 mesh2 with
  | mirror_symmetry =>
      andthen (item (submeshes mesh1) 0) (fun half1 =>
      andthen (item (submeshes mesh2) 0) (fun half2 =>
      Recurse half1 half2 (fun '(S_a, V_a) =>
      andthen (item (submeshes mesh1) 0) (fun half1 =>
      andthen (item (submeshes mesh2) 1) (fun other2 =>
      Recurse half1 other2 (fun '(S_b, V_b) =>
      Done (BlockToeplitzMatrix [S_a; S_b], BlockToeplitzMatrix [V_a; V_b])))))))
  | translational_symmetry =>
      andthen (collect mesh1 (submeshes mesh2) [] []) (fun '(S_list, V_list) =>
      Done (BlockToeplitzMatrix S_list, BlockToeplitzMatrix V_list))
  | rotation_symmetry =>
      andthen (collect mesh1
                 (firstn (nb_submeshes mesh2 / 2 + 1) (submeshes mesh2)) [] [])
        (fun '(S_list, V_list) =>
      Done (BlockCirculantMatrix S_list (nb_submeshes mesh1),
            BlockCirculantMatrix V_list (nb_submeshes mesh1)))
  | evaluation => Done (evaluated (build_matrices solver mesh1 mesh2 args))
  end.

(** Running an activation, given what a recursive call returns ([None]
    when it does not return).  The first component lists the recursive
    calls the activation made, in order. *)
Fixpoint run {A : Type} (rec : mesh -> mesh -> option (outcome (matrix * matrix)))
    (p : activation A) : list (mesh * mesh) * option (outcome A) :=
  match p with
  | Done a => ([], Some (Return a))
  | Throw e => ([], Some (Raise e))
  | Recurse m1 m2 k =>
      match rec m1 m2 with
      | Some (Return r) => let (calls, o) := run rec (k r) in ((m1, m2) :: calls, o)
      | Some (Raise e) => ([(m1, m2)], Some (Raise e))
      | None => ([(m1, m2)], None)
      end
  end.

Definition calls {A : Type} rec (p : activation A) : list (mesh * mesh) := fst (run rec p).
Definition result {A : Type} rec (p : activation A) : option (outcome A) := snd (run rec p).

(** The function with a bound on the depth of the recursion. *)
Fixpoint assemble (depth : nat) (solver : Solver) (args : Args) (mesh1 mesh2 : mesh)
    : option (outcome (matrix * matrix)) :=
  match depth with
  | O => None
  | S depth' => result (assemble depth' solver args) (body solver mesh1 mesh2 args)
  end.

(** The height of the tree of a mesh bounds the depth of the recursion:
    every recursive call is on a sub-mesh of [mesh2]. *)
Fixpoint height (m : mesh) : nat :=
  match m with
  | Mesh _ _ _ => 1
  | Collection _ _ _ l => S (fold_right (fun s h => Nat.max (height s) h) 0 l)
  end%nat.

(** [build_matrices_with_symmetries(solver, mesh1, mesh2, *args)].  The
    height of [mesh2] is depth enough ([assemble_defined] below): the last
    case is never reached. *)
Definition build_matrices_with_symmetries (solver : Solver) (mesh1 mesh2 : mesh)
    (args : Args) : outcome (matrix * matrix) :=
  match assemble (height mesh2) solver args mesh1 mesh2 with
  | Some o => o
  | None => Raise RecursionError
  end.

(** *** Dense matrices *)

(** A dense matrix, by blocks: the entries [build_matrices] computed, or a
    table of dense blocks. *)
Inductive dense : Type :=
| entries (c : Coefficients)
| grid (rows : list (list dense)).

Definition table {A : Type} (n m : nat) (f : nat -> nat -> A) : list (list A) :=
  map (fun i => map (f i) (seq 0 m)) (seq 0 n).

(** The distance of two block indices, and their distance around a circle of
    [n] blocks. *)
Definition toeplitz_index (i j : nat) : nat :=
  if (i <=? j)%nat then (j - i)%nat else (i - j)%nat.

Definition circulant_index (n i j : nat) : nat :=
  let d := ((j + n - i) mod n)%nat in Nat.min d (n - d).

(** Modelled from the spec: the expansion of the structured matrices of
    [capytaine.Toeplitz_matrices], which the source file imports.  A block
    Toeplitz matrix of n blocks is the n x n symmetric table whose block
    (i, j) is block |i - j| of the list.  A block circulant matrix of a
    given size wraps around and is symmetric: its block (i, j) is the block
    of the list at the distance of i and j around the circle. *)
Fixpoint expand (m : matrix) : dense :=
  match m with
  | Evaluated c => entries c
  | BlockToeplitzMatrix blocks =>
      let full := map expand blocks in
      let n := List.length blocks in
      grid (table n n (fun i j => nth (toeplitz_index i j) full (grid [])))
  | BlockCirculantMatrix blocks size =>
      let full := map expand blocks in
      grid (table size size (fun i j => nth (circulant_index size i j) full (grid [])))
  end.

(** The two matrices the functions return. *)
Inductive part : Type := S_part | V_part.

Definition coefficients_of (p : part) (r : Coefficients * Coefficients) : Coefficients :=
  match p with
  | S_part => fst r
  | V_part => snd r
  end.

(** The meshes of the external library at the leaves of the tree of a mesh,
    in the order of the sub-meshes. *)
Fixpoint leaves (m : mesh) : list mesh :=
  match m with
  | Mesh _ _ _ => [m]
  | Collection _ _ _ l => flat_map leaves l
  end.

(** The brute-force assembly, in the words of the specification: the base
    evaluator called directly on every pair of a leaf of [mesh1] and a leaf
    of [mesh2], one block per pair, the rows along [mesh1] and the columns
    along [mesh2]. *)
Definition brute_force (p : part) (solver : Solver) (args : Args) (mesh1 mesh2 : mesh)
    : list (list Coefficients) :=
  map (fun leaf1 =>
         map (fun leaf2 => coefficients_of p (build_matrices solver leaf1 leaf2 args))
             (leaves mesh2))
      (leaves mesh1).

(** The blocks of a dense matrix as one table: the tables of the blocks of
    one row of a grid stand side by side, and the rows of the grid one below
    the other. *)
Definition beside {A : Type} (left right : list (list A)) : list (list A) :=
  map (fun '(l, r) => l ++ r) (combine left right).

Fixpoint side_by_side {A : Type} (tables : list (list (list A))) : list (list A) :=
  match tables with
  | [] => []
  | t :: rest =>
      match rest with
      | [] => t
      | _ :: _ => beside t (side_by_side rest)
      end
  end.

Fixpoint blocks (d : dense) : list (list Coefficients) :=
  match d with
  | entries c => [[c]]
  | grid rows => List.concat (map (fun row => side_by_side (map blocks row)) rows)
  end.

(** The pairs of meshes that match none of the three symmetric cases, with
    the ones that look alike and still do not match. *)
Inductive no_symmetry_match : mesh -> mesh -> Prop :=
| no_test_holds (mesh1 mesh2 : mesh) :
    mirror_test mesh1 mesh2 = false ->
    translation_test mesh1 mesh2 = false ->
    rotation_test mesh1 mesh2 = false ->
    no_symmetry_match mesh1 mesh2
| different_translations id1 name1 t1 subs1 id2 name2 t2 subs2 :
    allclose t1 t2 = false ->
    no_symmetry_match (Collection id1 name1 (TranslationalSymmetry t1) subs1)
                      (Collection id2 name2 (TranslationalSymmetry t2) subs2)
| different_counts id1 name1 t1 subs1 id2 name2 t2 subs2 :
    List.length subs1 <> List.length subs2 ->
    no_symmetry_match (Collection id1 name1 (TranslationalSymmetry t1) subs1)
                      (Collection id2 name2 (TranslationalSymmetry t2) subs2)
| different_planes id1 name1 plane1 subs1 id2 name2 plane2 subs2 :
    Plane_eq plane1 plane2 = false ->
    no_symmetry_match (Collection id1 name1 (ReflectionSymmetry plane1) subs1)
                      (Collection id2 name2 (ReflectionSymmetry plane2) subs2)
| distinct_axial_objects id1 name1 point1 subs1 id2 name2 point2 subs2 :
    id1 <> id2 ->
    no_symmetry_match (Collection id1 name1 (AxialSymmetry point1) subs1)
                      (Collection id2 name2 (AxialSymmetry point2) subs2).

(** [traverse f l] evaluates [f] on the elements of [l] in order and stops
    at the first exception. *)
Fixpoint traverse {A B : Type} (f : A -> outcome B) (l : list A) : outcome (list B) :=
  match l with
  | [] => Return []
  | x :: r => obind (f x) (fun y => obind (traverse f r) (fun ys => Return (y :: ys)))
  end.

(** A recursive call that returns the pair [answer mesh1 mesh2]. *)
Definition returning (answer : mesh -> mesh -> matrix * matrix)
    : mesh -> mesh -> option (outcome (matrix * matrix)) :=
  fun mesh1 mesh2 => Some (Return (answer mesh1 mesh2)).

(** Every recursive call of an activation has its second mesh in [l]. *)
Inductive calls_within (l : list mesh) {A : Type} : activation A -> Prop :=
| within_Done (a : A) : calls_within l (Done a)
| within_Throw (e : exception) : calls_within l (Throw e)
| within_Recurse (m1 m2 : mesh) (k : matrix * matrix -> activation A) :
    In m2 l -> (forall r, calls_within l (k r)) -> calls_within l (Recurse m1 m2 k).

(** *** The recursion ends *)

Lemma run_ext (l : list mesh) (A : Type) (p : activation A) rec rec' :
  calls_within l p ->
  (forall a s, In s l -> rec a s = rec' a s) ->
  run rec p = run rec' p.
Proof.
  intros W E. induction W as [a | e | m1 m2 k I _ IH]; simpl; try reflexivity.
  rewrite <- (E m1 m2 I).
  destruct (rec m1 m2) as [[r | e] | ]; try reflexivity.
  now rewrite IH.
Qed.

Lemma run_defined (l : list mesh) (A : Type) (p : activation A) rec :
  calls_within l p ->
  (forall a s, In s l -> exists o, rec a s = Some o) ->
  exists o, result rec p = Some o.
Proof.
  unfold result. intros W E.
  induction W as [a | e | m1 m2 k I _ IH]; simpl; eauto.
  destruct (E m1 m2 I) as [[r | e] ->]; simpl; eauto.
  destruct (IH r) as [o Ho]. destruct (run rec (k r)) as [cs o']. simpl in *. eauto.
Qed.

Lemma within_item (l : list mesh) (A : Type) (subs : list mesh) (i : nat)
    (f : mesh -> activation A) :
  (forall m, nth_error subs i = Some m -> calls_within l (f m)) ->
  calls_within l (andthen (item subs i) f).
Proof.
  intros F. unfold item, getitem.
  destruct (nth_error subs i) as [m | ]; simpl; [ now apply F | constructor ].
Qed.

Lemma within_collect (l : list mesh) (mesh1 : mesh) (subbodies S_list V_list : list _) :
  incl subbodies l -> calls_within l (collect mesh1 subbodies S_list V_list).
Proof.
  revert S_list V_list.
  induction subbodies as [ | s r IH]; intros S_list V_list I.
  - constructor.
  - cbn [collect]. apply within_item. intros first _. constructor.
    + apply I. now left.
    + intros [S_i V_i]. apply IH. intros x Hx. apply I. now right.
Qed.

Lemma within_andthen (l : list mesh) (A B : Type) (p : activation A)
    (f : A -> activation B) :
  calls_within l p -> (forall a, calls_within l (f a)) -> calls_within l (andthen p f).
Proof.
  intros W F. induction W; simpl; auto using within_Throw, within_Recurse.
Qed.

Lemma firstn_incl (A : Type) (n : nat) (l : list A) : incl (firstn n l) l.
Proof.
  intros x Hx. rewrite <- (firstn_skipn n l). apply in_or_app. now left.
Qed.

Lemma within_body solver mesh1 mesh2 args :
  calls_within (submeshes mesh2) (body solver mesh1 mesh2 args).
Proof.
  unfold body. destruct (dispatch mesh1 mesh2).
  - apply within_item. intros half1 _. apply within_item. intros half2 E0.
    constructor; [ now apply nth_error_In in E0 | intros [S_a V_a] ].
    apply within_item. intros half1' _. apply within_item. intros other2 E1.
    constructor; [ now apply nth_error_In in E1 | intros [S_b V_b]; constructor ].
  - apply within_andthen.
    + apply within_collect, incl_refl.
    + intros [S_list V_list]. constructor.
  - apply within_andthen.
    + apply within_collect, firstn_incl.
    + intros [S_list V_list]. constructor.
  - constructor.
Qed.

Lemma height_submesh (m s : mesh) : In s (submeshes m) -> (height s < height m)%nat.
Proof.
  destruct m as [i n g | i n k l]; simpl; [ tauto | ].
  induction l as [ | x r IH]; simpl; [ tauto | ].
  intros [-> | I]; [ lia | specialize (IH I); lia ].
Qed.

Lemma assemble_defined solver args (depth : nat) :
  forall mesh1 mesh2, (height mesh2 <= depth)%nat ->
  exists o, assemble depth solver args mesh1 mesh2 = Some o.
Proof.
  induction depth as [ | depth IH]; intros mesh1 mesh2 H.
  - destruct mesh2; simpl in H; lia.
  - simpl. apply run_defined with (l := submeshes mesh2).
    + apply within_body.
    + intros a s I. apply IH. apply height_submesh in I. lia.
Qed.

Lemma assemble_stable solver args (depth : nat) :
  forall depth' mesh1 mesh2,
  (height mesh2 <= depth)%nat -> (height mesh2 <= depth')%nat ->
  assemble depth solver args mesh1 mesh2 = assemble depth' solver args mesh1 mesh2.
Proof.
  induction depth as [ | depth IH]; intros depth' mesh1 mesh2 H H'.
  - destruct mesh2; simpl in H; lia.
  - destruct depth' as [ | depth']; [ destruct mesh2; simpl in H'; lia | ].
    simpl. unfold result. f_equal.
    apply run_ext with (l := submeshes mesh2); [ apply within_body | ].
    intros a s I. apply height_submesh in I. apply IH; lia.
Qed.

(** The function satisfies the equation of its Python definition: its result
    is the one of its body, where each recursive call returns the result of
    the function itself. *)
Lemma build_matrices_with_symmetries_eq solver mesh1 mesh2 args :
  result (fun a b => Some (build_matrices_with_symmetries solver a b args))
         (body solver mesh1 mesh2 args)
  = Some (build_matrices_with_symmetries solver mesh1 mesh2 args).
Proof.
  unfold build_matrices_with_symmetries at 2.
  destruct (height mesh2) as [ | h] eqn:Hh; [ destruct mesh2; discriminate | ].
  simpl. unfold result.
  rewrite (run_ext (submeshes mesh2) _ _ _ (assemble h solver args) (within_body _ _ _ _)).
  - destruct (run_defined (submeshes mesh2) _ (body solver mesh1 mesh2 args)
               (assemble h solver args) (within_body _ _ _ _)) as [o Ho].
    + intros a s I. apply assemble_defined. apply height_submesh in I. lia.
    + unfold result in Ho. now rewrite Ho.
  - intros a s I. apply height_submesh in I. unfold build_matrices_with_symmetries.
    rewrite (assemble_stable solver args h (height s)) by lia.
    destruct (assemble_defined solver args (height s) a s (le_n _)) as [o ->].
    reflexivity.
Qed.

(** *** What one activation does *)

Lemma run_andthen (A B : Type) rec (p : activation A) (f : A -> activation B) :
  run rec (andthen p f) =
  match run rec p with
  | (cs, Some (Return a)) => let (cs', o) := run rec (f a) in (cs ++ cs', o)
  | (cs, Some (Raise e)) => (cs, Some (Raise e))
  | (cs, None) => (cs, None)
  end.
Proof.
  induction p as [a | e | m1 m2 k IH]; simpl.
  - now destruct (run rec (f a)).
  - reflexivity.
  - destruct (rec m1 m2) as [[r | e] | ]; try reflexivity.
    rewrite IH. destruct (run rec (k r)) as [cs [[a | e] | ]]; try reflexivity.
    now destruct (run rec (f a)).
Qed.

Lemma run_item (A : Type) rec (subs : list mesh) (i : nat) (m : mesh)
    (f : mesh -> activation A) :
  nth_error subs i = Some m -> run rec (andthen (item subs i) f) = run rec (f m).
Proof.
  intros E. unfold item, getitem. now rewrite E.
Qed.

(** The loop, when every recursive call returns. *)
Lemma run_collect_returning answer (mesh1 first : mesh) (subbodies : list mesh) :
  (subbodies = [] \/ nth_error (submeshes mesh1) 0 = Some first) ->
  forall S_list V_list,
  run (returning answer) (collect mesh1 subbodies S_list V_list) =
  (map (pair first) subbodies,
   Some (Return (S_list ++ map (fun s => fst (answer first s)) subbodies,
                 V_list ++ map (fun s => snd (answer first s)) subbodies))).
Proof.
  intros H. induction subbodies as [ | s r IH]; intros S_list V_list.
  - simpl. now rewrite !app_nil_r.
  - destruct H as [H | H]; [ discriminate | ].
    cbn [collect]. rewrite (run_item _ _ _ _ _ _ H). cbn [run returning].
    destruct (answer first s) as [S_i V_i] eqn:E.
    rewrite (IH (or_intror H)). cbn [map fst snd]. rewrite E. cbn [fst snd].
    now rewrite <- !app_assoc.
Qed.

(** The loop, whatever the recursive calls do. *)
Lemma result_collect (rec : mesh -> mesh -> outcome (matrix * matrix))
    (mesh1 first : mesh) (subbodies : list mesh) :
  (subbodies = [] \/ nth_error (submeshes mesh1) 0 = Some first) ->
  forall S_list V_list,
  result (fun a b => Some (rec a b)) (collect mesh1 subbodies S_list V_list) =
  Some (obind (traverse (rec first) subbodies) (fun rs =>
        Return (S_list ++ map fst rs, V_list ++ map snd rs))).
Proof.
  unfold result.
  intros H. induction subbodies as [ | s r IH]; intros S_list V_list.
  - simpl. now rewrite !app_nil_r.
  - destruct H as [H | H]; [ discriminate | ].
    cbn [collect]. rewrite (run_item _ _ _ _ _ _ H). cbn [run traverse].
    destruct (rec first s) as [[S_i V_i] | e]; [ | reflexivity ].
    specialize (IH (or_intror H) (S_list ++ [S_i]) (V_list ++ [V_i])).
    destruct (run _ (collect mesh1 r _ _)) as [cs o]. cbn [snd] in *. rewrite IH.
    cbn [obind]. destruct (traverse (rec first) r) as [rs | e]; cbn [obind map fst snd].
    + now rewrite <- !app_assoc.
    + reflexivity.
Qed.

Lemma result_andthen_Done (A B : Type) rec (p : activation A) (g : A -> B) (o : outcome A) :
  result rec p = Some o ->
  result rec (andthen p (fun a => Done (g a))) = Some (obind o (fun a => Return (g a))).
Proof.
  unfold result. rewrite run_andthen.
  destruct (run rec p) as [cs [[a | e] | ]]; cbn [snd]; intros E; inversion E; subst; reflexivity.
Qed.

Lemma function_of_result solver mesh1 mesh2 args o :
  result (fun a b => Some (build_matrices_with_symmetries solver a b args))
         (body solver mesh1 mesh2 args) = Some o ->
  build_matrices_with_symmetries solver mesh1 mesh2 args = o.
Proof.
  rewrite build_matrices_with_symmetries_eq. now intros [= ->].
Qed.

(** *** The four cases of the dispatch *)

(** C4.  When both meshes are ReflectionSymmetry objects whose planes are
    equal, the function calls itself exactly twice, on the first sub-mesh of
    [mesh1] with the first and then the second sub-mesh of [mesh2], never on
    another sub-mesh of [mesh1], and returns the two block Toeplitz matrices
    of the two S blocks and of the two V blocks. *)
Theorem mirror_case solver args (id1 id2 : nat) (name1 name2 : string)
    (plane1 plane2 : Plane) (half1 half2 other2 : mesh) (rest1 rest2 : list mesh) :
  let mesh1 := Collection id1 name1 (ReflectionSymmetry plane1) (half1 :: rest1) in
  let mesh2 := Collection id2 name2 (ReflectionSymmetry plane2) (half2 :: other2 :: rest2) in
  Plane_eq plane1 plane2 = true ->
  (forall answer,
     run (returning answer) (body solver mesh1 mesh2 args) =
     ([(half1, half2); (half1, other2)],
      Some (Return
        (BlockToeplitzMatrix [fst (answer half1 half2); fst (answer half1 other2)],
         BlockToeplitzMatrix [snd (answer half1 half2); snd (answer half1 other2)]))))
  /\ build_matrices_with_symmetries solver mesh1 mesh2 args =
     obind (build_matrices_with_symmetries solver half1 half2 args) (fun a =>
     obind (build_matrices_with_symmetries solver half1 other2 args) (fun b =>
     Return (BlockToeplitzMatrix [fst a; fst b], BlockToeplitzMatrix [snd a; snd b]))).
Proof.
  intros mesh1 mesh2 E.
  assert (B : body solver mesh1 mesh2 args =
    Recurse half1 half2 (fun '(S_a, V_a) =>
    Recurse half1 other2 (fun '(S_b, V_b) =>
    Done (BlockToeplitzMatrix [S_a; S_b], BlockToeplitzMatrix [V_a; V_b])))).
  { unfold body, dispatch, mesh1, mesh2. cbn [mirror_test]. rewrite E. reflexivity. }
  split.
  - intros answer. rewrite B. cbn [run returning].
    destruct (answer half1 half2) as [S_a V_a]. cbn [run returning].
    destruct (answer half1 other2) as [S_b V_b]. reflexivity.
  - apply function_of_result. rewrite B. unfold result. cbn [run].
    destruct (build_matrices_with_symmetries solver half1 half2 args) as [[S_a V_a] | e];
      [ | reflexivity ].
    cbn [run obind].
    destruct (build_matrices_with_symmetries solver half1 other2 args) as [[S_b V_b] | e];
      reflexivity.
Qed.

Lemma run_collect_then answer (mesh1 first : mesh) (subbodies : list mesh)
    (build : list matrix -> matrix) :
  (subbodies = [] \/ nth_error (submeshes mesh1) 0 = Some first) ->
  run (returning answer)
      (andthen (collect mesh1 subbodies [] []) (fun '(S_list, V_list) =>
       Done (build S_list, build V_list))) =
  (map (pair first) subbodies,
   Some (Return (build (map (fun s => fst (answer first s)) subbodies),
                 build (map (fun s => snd (answer first s)) subbodies)))).
Proof.
  intros H. rewrite run_andthen, (run_collect_returning answer mesh1 first _ H).
  cbn [run app]. now rewrite app_nil_r.
Qed.

Lemma result_collect_then (rec : mesh -> mesh -> outcome (matrix * matrix))
    (mesh1 first : mesh) (subbodies : list mesh) (build : list matrix -> matrix) :
  (subbodies = [] \/ nth_error (submeshes mesh1) 0 = Some first) ->
  result (fun a b => Some (rec a b))
      (andthen (collect mesh1 subbodies [] []) (fun '(S_list, V_list) =>
       Done (build S_list, build V_list))) =
  Some (obind (traverse (rec first) subbodies) (fun rs =>
        Return (build (map fst rs), build (map snd rs)))).
Proof.
  intros H.
  pose proof (result_collect rec mesh1 first subbodies H [] []) as R.
  unfold result in *. rewrite run_andthen.
  destruct (run _ (collect mesh1 subbodies [] [])) as [cs o]. cbn [snd] in R. subst o.
  destruct (traverse (rec first) subbodies) as [rs | e]; reflexivity.
Qed.

Lemma first_submesh (mesh1 : mesh) (subbodies : list mesh) :
  (subbodies = [] \/ submeshes mesh1 <> []) ->
  subbodies = [] \/ nth_error (submeshes mesh1) 0 = Some (hd mesh1 (submeshes mesh1)).
Proof.
  intros [H | H]; [ now left | right ].
  destruct (submeshes mesh1); [ congruence | reflexivity ].
Qed.

(** C3.  When both meshes are TranslationalSymmetry objects whose translations
    are close and whose numbers of sub-meshes are equal, the function calls
    itself once per sub-mesh of [mesh2], in the order of [mesh2], each time
    with the first sub-mesh of [mesh1], and returns the block Toeplitz
    matrices of the S blocks and of the V blocks it collected. *)
Theorem translation_case solver args (id1 id2 : nat) (name1 name2 : string)
    (translation1 translation2 : list Q) (subs1 subs2 : list mesh) :
  let mesh1 := Collection id1 name1 (TranslationalSymmetry translation1) subs1 in
  let mesh2 := Collection id2 name2 (TranslationalSymmetry translation2) subs2 in
  let first := hd mesh1 subs1 in
  allclose translation1 translation2 = true ->
  List.length subs1 = List.length subs2 ->
  (forall answer,
     run (returning answer) (body solver mesh1 mesh2 args) =
     (map (pair first) subs2,
      Some (Return
        (BlockToeplitzMatrix (map (fun s => fst (answer first s)) subs2),
         BlockToeplitzMatrix (map (fun s => snd (answer first s)) subs2))))
     /\ List.length (calls (returning answer) (body solver mesh1 mesh2 args))
        = nb_submeshes mesh2)
  /\ build_matrices_with_symmetries solver mesh1 mesh2 args =
     obind (traverse (fun s => build_matrices_with_symmetries solver first s args) subs2)
       (fun rs => Return (BlockToeplitzMatrix (map fst rs), BlockToeplitzMatrix (map snd rs))).
Proof.
  intros mesh1 mesh2 first E L.
  assert (B : body solver mesh1 mesh2 args =
    andthen (collect mesh1 subs2 [] []) (fun '(S_list, V_list) =>
    Done (BlockToeplitzMatrix S_list, BlockToeplitzMatrix V_list))).
  { unfold body, dispatch, mesh1, mesh2.
    cbn [mirror_test translation_test]. unfold nb_submeshes. cbn [submeshes].
    rewrite E, L, Nat.eqb_refl. reflexivity. }
  assert (H : subs2 = [] \/ nth_error (submeshes mesh1) 0 = Some first).
  { apply first_submesh. cbn [mesh1 submeshes].
    destruct subs2; [ now left | right; destruct subs1; discriminate ]. }
  split.
  - intros answer. unfold calls. rewrite B, (run_collect_then answer mesh1 first _ _ H).
    split; [ reflexivity | ]. cbn [fst]. now rewrite length_map.
  - apply function_of_result. rewrite B.
    apply (result_collect_then
             (fun a b => build_matrices_with_symmetries solver a b args) mesh1 first _ _ H).
Qed.

(** C2.  The rotation case is taken exactly when [mesh1] is an AxialSymmetry
    object and [mesh2] is the same object: two AxialSymmetry objects that are
    not the same object do not take it, however alike.  With n sub-meshes,
    the function then calls itself n/2 + 1 times (integer division), on the
    first sub-mesh of [mesh1] with each of the first n/2 + 1 sub-meshes of
    [mesh2] in order, and returns two block circulant matrices of size n
    built from the collected blocks. *)
Theorem rotation_case solver args (mesh1 mesh2 : mesh) :
  let n := nb_submeshes mesh2 in
  let first := hd mesh1 (submeshes mesh1) in
  let representatives := firstn (n / 2 + 1) (submeshes mesh2) in
  (dispatch mesh1 mesh2 = rotation_symmetry <->
   isinstance_AxialSymmetry mesh1 = true /\ is_ mesh1 mesh2 = true)
  /\ (id_of mesh1 <> id_of mesh2 -> dispatch mesh1 mesh2 <> rotation_symmetry)
  /\ (dispatch mesh1 mesh2 = rotation_symmetry ->
      submeshes mesh1 <> [] -> (1 <= n)%nat ->
      (forall answer,
         run (returning answer) (body solver mesh1 mesh2 args) =
         (map (pair first) representatives,
          Some (Return
            (BlockCirculantMatrix (map (fun s => fst (answer first s)) representatives)
                                  (nb_submeshes mesh1),
             BlockCirculantMatrix (map (fun s => snd (answer first s)) representatives)
                                  (nb_submeshes mesh1))))
         /\ List.length (calls (returning answer) (body solver mesh1 mesh2 args))
            = (n / 2 + 1)%nat)
      /\ build_matrices_with_symmetries solver mesh1 mesh2 args =
         obind (traverse (fun s => build_matrices_with_symmetries solver first s args)
                         representatives)
           (fun rs => Return (BlockCirculantMatrix (map fst rs) (nb_submeshes mesh1),
                              BlockCirculantMatrix (map snd rs) (nb_submeshes mesh1)))).
Proof.
  intros n first representatives.
  assert (I : dispatch mesh1 mesh2 = rotation_symmetry <->
              isinstance_AxialSymmetry mesh1 = true /\ is_ mesh1 mesh2 = true).
  { unfold dispatch, rotation_test.
    destruct mesh1 as [i1 n1 g1 | i1 n1 [ | p1 | t1 | a1] l1];
      try (cbn; split; [ discriminate | intros [? ?]; discriminate ]).
    - destruct mesh2 as [i2 n2 g2 | i2 n2 [ | p2 | t2 | a2] l2]; cbn;
        try (split; [ discriminate | intros [? ?]; discriminate ]).
      destruct (Plane_eq p1 p2); split; try discriminate; intros [? ?]; discriminate.
    - destruct mesh2 as [i2 n2 g2 | i2 n2 [ | p2 | t2 | a2] l2]; cbn;
        try (split; [ discriminate | intros [? ?]; discriminate ]).
      destruct (allclose t1 t2 && _); split; try discriminate; intros [? ?]; discriminate.
    - cbn [mirror_test translation_test isinstance_AxialSymmetry].
      destruct (is_ _ mesh2); split; try discriminate; auto; intros [_ ?]; discriminate. }
  split; [ exact I | split ].
  - intros D R. apply I in R. destruct R as [_ R]. unfold is_ in R.
    now apply Nat.eqb_eq in R.
  - intros D N P.
    assert (B : body solver mesh1 mesh2 args =
      andthen (collect mesh1 representatives [] []) (fun '(S_list, V_list) =>
      Done (BlockCirculantMatrix S_list (nb_submeshes mesh1),
            BlockCirculantMatrix V_list (nb_submeshes mesh1)))).
    { unfold body. now rewrite D. }
    assert (H : representatives = [] \/ nth_error (submeshes mesh1) 0 = Some first).
    { apply first_submesh. now right. }
    split.
    + intros answer. unfold calls.
      rewrite B, (run_collect_then answer mesh1 first _
                    (fun l => BlockCirculantMatrix l (nb_submeshes mesh1)) H).
      split; [ reflexivity | ]. cbn [fst]. unfold representatives.
      rewrite length_map, length_firstn. fold (nb_submeshes mesh2). fold n.
      assert (n / 2 < n)%nat by (apply Nat.div_lt; lia). lia.
    + apply function_of_result. rewrite B.
      apply (result_collect_then
               (fun a b => build_matrices_with_symmetries solver a b args) mesh1 first _
               (fun l => BlockCirculantMatrix l (nb_submeshes mesh1)) H).
Qed.

(** C5.  On a pair of meshes that matches none of the three symmetric cases,
    among which two TranslationalSymmetry objects whose translations are not
    close or whose numbers of sub-meshes differ, two ReflectionSymmetry
    objects whose planes differ and two distinct AxialSymmetry objects, the
    function raises nothing: it returns what [build_matrices] returns on
    the solver, the two meshes and the extra arguments. *)
Theorem fallback solver args (mesh1 mesh2 : mesh) :
  no_symmetry_match mesh1 mesh2 ->
  dispatch mesh1 mesh2 = evaluation
  /\ calls (fun _ _ => None) (body solver mesh1 mesh2 args) = []
  /\ build_matrices_with_symmetries solver mesh1 mesh2 args =
     Return (evaluated (build_matrices solver mesh1 mesh2 args)).
Proof.
  intros M.
  assert (D : dispatch mesh1 mesh2 = evaluation).
  { unfold dispatch. destruct M as [m1 m2 E1 E2 E3 | ? ? ? ? ? ? ? ? E | ? ? ? ? ? ? ? ? E
                                   | ? ? ? ? ? ? ? ? E | ? ? ? ? ? ? ? ? E].
    - now rewrite E1, E2, E3.
    - cbn. now rewrite E.
    - cbn. apply Nat.eqb_neq in E. rewrite E. now rewrite andb_false_r.
    - cbn. now rewrite E.
    - cbn. unfold is_. cbn. apply Nat.eqb_neq in E. now rewrite E. }
  split; [ exact D | ].
  assert (B : body solver mesh1 mesh2 args =
              Done (evaluated (build_matrices solver mesh1 mesh2 args))).
  { unfold body. now rewrite D. }
  split.
  - now rewrite B.
  - apply function_of_result. now rewrite B.
Qed.

(** *** The function as an equation *)

Lemma traverse_Return (A B : Type) (f : A -> outcome B) (Q : A -> B -> Prop) (l : list A) :
  Forall (fun x => exists y, f x = Return y /\ Q x y) l ->
  exists ys, traverse f l = Return ys /\ Forall2 Q l ys.
Proof.
  induction 1 as [ | x r [y [E q]] _ [ys [Es qs]]]; cbn [traverse].
  - exists []. split; [ reflexivity | constructor ].
  - exists (y :: ys). rewrite E, Es. split; [ reflexivity | now constructor ].
Qed.

Lemma Forall2_length' (A B : Type) (Q : A -> B -> Prop) (l : list A) (ys : list B) :
  Forall2 Q l ys -> List.length ys = List.length l.
Proof.
  induction 1; cbn; congruence.
Qed.

Lemma function_evaluation solver mesh1 mesh2 args :
  dispatch mesh1 mesh2 = evaluation ->
  build_matrices_with_symmetries solver mesh1 mesh2 args =
  Return (evaluated (build_matrices solver mesh1 mesh2 args)).
Proof.
  intros D. apply function_of_result. unfold body. now rewrite D.
Qed.

Lemma function_collect solver mesh1 mesh2 args (subbodies : list mesh)
    (build : list matrix -> matrix) :
  body solver mesh1 mesh2 args =
    andthen (collect mesh1 subbodies [] []) (fun '(S_list, V_list) =>
    Done (build S_list, build V_list)) ->
  (subbodies = [] \/ submeshes mesh1 <> []) ->
  build_matrices_with_symmetries solver mesh1 mesh2 args =
  obind (traverse (fun s => build_matrices_with_symmetries solver
                              (hd mesh1 (submeshes mesh1)) s args) subbodies)
    (fun rs => Return (build (map fst rs), build (map snd rs))).
Proof.
  intros B H. apply function_of_result. rewrite B.
  apply (result_collect_then
           (fun a b => build_matrices_with_symmetries solver a b args) mesh1 _ _ _
           (first_submesh _ _ H)).
Qed.

Lemma function_mirror solver mesh1 mesh2 args :
  dispatch mesh1 mesh2 = mirror_symmetry ->
  submeshes mesh1 <> [] -> (2 <= nb_submeshes mesh2)%nat ->
  build_matrices_with_symmetries solver mesh1 mesh2 args =
  obind (traverse (fun s => build_matrices_with_symmetries solver
                              (hd mesh1 (submeshes mesh1)) s args)
                  (firstn 2 (submeshes mesh2)))
    (fun rs => Return (BlockToeplitzMatrix (map fst rs), BlockToeplitzMatrix (map snd rs))).
Proof.
  intros D N1 N2. apply function_of_result. unfold body, result. rewrite D.
  unfold nb_submeshes in N2.
  destruct (submeshes mesh1) as [ | half1 rest1]; [ congruence | ].
  destruct (submeshes mesh2) as [ | half2 [ | other2 rest2]]; cbn in N2; try lia.
  cbn [item getitem nth_error andthen run hd firstn traverse].
  destruct (build_matrices_with_symmetries solver half1 half2 args) as [[S_a V_a] | e];
    [ | reflexivity ].
  cbn [item getitem nth_error andthen run obind].
  destruct (build_matrices_with_symmetries solver half1 other2 args) as [[S_b V_b] | e];
    reflexivity.
Qed.

Lemma dispatch_translational_count (mesh1 mesh2 : mesh) :
  dispatch mesh1 mesh2 = translational_symmetry -> nb_submeshes mesh1 = nb_submeshes mesh2.
Proof.
  unfold dispatch. destruct (mirror_test mesh1 mesh2); [ discriminate | ].
  destruct (translation_test mesh1 mesh2) eqn:T.
  - intros _. unfold translation_test in T.
    destruct mesh1 as [ | ? ? [ | | t1 | ] ?]; try discriminate.
    destruct mesh2 as [ | ? ? [ | | t2 | ] ?]; try discriminate.
    apply andb_prop in T. now apply Nat.eqb_eq.
  - destruct (rotation_test mesh1 mesh2); discriminate.
Qed.

(** *** Further properties of the dispatch *)

Lemma tests_exclusive (mesh1 mesh2 : mesh) :
  (mirror_test mesh1 mesh2 = true ->
   translation_test mesh1 mesh2 = false /\ rotation_test mesh1 mesh2 = false)
  /\ (translation_test mesh1 mesh2 = true -> rotation_test mesh1 mesh2 = false).
Proof.
  unfold mirror_test, translation_test, rotation_test.
  destruct mesh1 as [i1 n1 g1 | i1 n1 [ | p1 | t1 | a1] l1];
    destruct mesh2 as [i2 n2 g2 | i2 n2 [ | p2 | t2 | a2] l2];
    split; intros; try discriminate; auto.
Qed.

Lemma dispatch_tests (mesh1 mesh2 : mesh) :
  (dispatch mesh1 mesh2 = mirror_symmetry <-> mirror_test mesh1 mesh2 = true)
  /\ (dispatch mesh1 mesh2 = translational_symmetry <-> translation_test mesh1 mesh2 = true)
  /\ (dispatch mesh1 mesh2 = rotation_symmetry <-> rotation_test mesh1 mesh2 = true)
  /\ (dispatch mesh1 mesh2 = evaluation <->
      mirror_test mesh1 mesh2 = false /\ translation_test mesh1 mesh2 = false
      /\ rotation_test mesh1 mesh2 = false).
Proof.
  destruct (tests_exclusive mesh1 mesh2) as [X1 X2]. unfold dispatch.
  destruct (mirror_test mesh1 mesh2) eqn:M.
  - destruct (X1 eq_refl) as [-> ->].
    repeat split; try discriminate; auto; intros [? _]; discriminate.
  - destruct (translation_test mesh1 mesh2) eqn:T.
    + rewrite (X2 eq_refl).
      repeat split; try discriminate; auto; intros [_ [? _]]; discriminate.
    + destruct (rotation_test mesh1 mesh2) eqn:R;
        repeat split; try discriminate; auto; intros [_ [_ ?]]; discriminate.
Qed.

(** The three tests exclude one another, so each symmetric branch is taken
    exactly when its own test holds: the order of the [if] and [elif] does
    not matter. *)
Theorem branch_of_its_own_test (mesh1 mesh2 : mesh) :
  (mirror_test mesh1 mesh2 && translation_test mesh1 mesh2 = false)
  /\ (mirror_test mesh1 mesh2 && rotation_test mesh1 mesh2 = false)
  /\ (translation_test mesh1 mesh2 && rotation_test mesh1 mesh2 = false)
  /\ (dispatch mesh1 mesh2 = mirror_symmetry <-> mirror_test mesh1 mesh2 = true)
  /\ (dispatch mesh1 mesh2 = translational_symmetry <-> translation_test mesh1 mesh2 = true)
  /\ (dispatch mesh1 mesh2 = rotation_symmetry <-> rotation_test mesh1 mesh2 = true)
  /\ (dispatch mesh1 mesh2 = evaluation <->
      mirror_test mesh1 mesh2 = false /\ translation_test mesh1 mesh2 = false
      /\ rotation_test mesh1 mesh2 = false).
Proof.
  destruct (tests_exclusive mesh1 mesh2) as [X1 X2].
  split; [ | split; [ | split; [ | apply dispatch_tests ] ] ].
  - destruct (mirror_test mesh1 mesh2); [ now destruct (X1 eq_refl) as [-> _] | reflexivity ].
  - destruct (mirror_test mesh1 mesh2); [ now destruct (X1 eq_refl) as [_ ->] | reflexivity ].
  - destruct (translation_test mesh1 mesh2); [ now rewrite X2 | reflexivity ].
Qed.

(** The symmetry of one mesh alone is never used.  When [mesh1] is a mesh or
    a collection of no symmetric class, or when [mesh2] is one and is not
    the object [mesh1], the function makes no recursive call and returns
    what [build_matrices] returns on the two meshes. *)
Theorem plain_mesh_is_evaluated solver args (mesh1 mesh2 : mesh) :
  (isinstance_ReflectionSymmetry mesh1 || isinstance_TranslationalSymmetry mesh1
   || isinstance_AxialSymmetry mesh1 = false)
  \/ (isinstance_ReflectionSymmetry mesh2 || isinstance_TranslationalSymmetry mesh2
      || isinstance_AxialSymmetry mesh2 = false /\ is_ mesh1 mesh2 = false) ->
  calls (fun _ _ => None) (body solver mesh1 mesh2 args) = []
  /\ build_matrices_with_symmetries solver mesh1 mesh2 args =
     Return (evaluated (build_matrices solver mesh1 mesh2 args)).
Proof.
  intros H.
  assert (D : dispatch mesh1 mesh2 = evaluation).
  { apply (proj2 (proj2 (proj2 (dispatch_tests mesh1 mesh2)))).
    unfold mirror_test, translation_test, rotation_test.
    destruct H as [H | [H I]].
    - destruct mesh1 as [i1 n1 g1 | i1 n1 [ | p1 | t1 | a1] l1]; try discriminate; auto.
    - rewrite I.
      destruct mesh2 as [i2 n2 g2 | i2 n2 [ | p2 | t2 | a2] l2]; try discriminate;
        destruct mesh1 as [i1 n1 g1 | i1 n1 [ | p1 | t1 | a1] l1]; auto. }
  split.
  - unfold body. now rewrite D.
  - now apply function_evaluation.
Qed.

(** The recursion ends: a bound on the depth that is at least the height of
    the tree of [mesh2] is never exhausted, and the result does not depend
    on it. *)
Theorem recursion_within_height solver args (depth : nat) (mesh1 mesh2 : mesh) :
  (height mesh2 <= depth)%nat ->
  assemble depth solver args mesh1 mesh2
  = Some (build_matrices_with_symmetries solver mesh1 mesh2 args).
Proof.
  intros H. unfold build_matrices_with_symmetries.
  rewrite (assemble_stable solver args depth (height mesh2)) by lia.
  destruct (assemble_defined solver args (height mesh2) mesh1 mesh2 (le_n _)) as [o ->].
  reflexivity.
Qed.

(** Every recursive call of an activation satisfies [P]. *)
Inductive calls_satisfy (P : mesh -> mesh -> Prop) {A : Type} : activation A -> Prop :=
| satisfy_Done (a : A) : calls_satisfy P (Done a)
| satisfy_Throw (e : exception) : calls_satisfy P (Throw e)
| satisfy_Recurse (m1 m2 : mesh) (k : matrix * matrix -> activation A) :
    P m1 m2 -> (forall r, calls_satisfy P (k r)) -> calls_satisfy P (Recurse m1 m2 k).

Lemma calls_satisfy_In (P : mesh -> mesh -> Prop) (A : Type) (p : activation A) rec a b :
  calls_satisfy P p -> In (a, b) (calls rec p) -> P a b.
Proof.
  unfold calls. induction 1 as [x | e | m1 m2 k H _ IH]; cbn [run fst]; try (intros []).
  revert IH.
  destruct (rec m1 m2) as [[r | e] | ]; intros IH.
  - specialize (IH r). destruct (run rec (k r)) as [cs o]. cbn [fst] in *.
    intros [[= <- <-] | I]; auto.
  - intros [[= <- <-] | []]. exact H.
  - intros [[= <- <-] | []]. exact H.
Qed.

Lemma satisfy_item (P : mesh -> mesh -> Prop) (A : Type) (subs : list mesh) (i : nat)
    (f : mesh -> activation A) :
  (forall m, nth_error subs i = Some m -> calls_satisfy P (f m)) ->
  calls_satisfy P (andthen (item subs i) f).
Proof.
  intros F. unfold item, getitem.
  destruct (nth_error subs i) as [m | ]; simpl; [ now apply F | constructor ].
Qed.

Lemma satisfy_andthen (P : mesh -> mesh -> Prop) (A B : Type) (p : activation A)
    (f : A -> activation B) :
  calls_satisfy P p -> (forall a, calls_satisfy P (f a)) -> calls_satisfy P (andthen p f).
Proof.
  intros W F. induction W; simpl; auto using satisfy_Throw, satisfy_Recurse.
Qed.

Lemma satisfy_collect (l : list mesh) (mesh1 : mesh) (subbodies S_list V_list : list _) :
  incl subbodies l ->
  calls_satisfy (fun a b => nth_error (submeshes mesh1) 0 = Some a /\ In b l)
                (collect mesh1 subbodies S_list V_list).
Proof.
  revert S_list V_list.
  induction subbodies as [ | s r IH]; intros S_list V_list I.
  - constructor.
  - cbn [collect]. apply satisfy_item. intros first E. constructor.
    + split; [ exact E | apply I; now left ].
    + intros [S_i V_i]. apply IH. intros x Hx. apply I. now right.
Qed.

(** The function never recurses on another sub-mesh of [mesh1] than the
    first: whatever the recursive calls return, every recursive call of one
    activation is on the first sub-mesh of [mesh1] and a sub-mesh of
    [mesh2], and there is none in the branch of the evaluation. *)
Theorem recursive_calls_on_first_submesh solver args (mesh1 mesh2 : mesh) rec (a b : mesh) :
  In (a, b) (calls rec (body solver mesh1 mesh2 args)) ->
  nth_error (submeshes mesh1) 0 = Some a
  /\ In b (submeshes mesh2)
  /\ dispatch mesh1 mesh2 <> evaluation.
Proof.
  intros I.
  assert (W : calls_satisfy
                (fun a b => nth_error (submeshes mesh1) 0 = Some a
                            /\ In b (submeshes mesh2))
                (body solver mesh1 mesh2 args)).
  { unfold body. destruct (dispatch mesh1 mesh2).
    - apply satisfy_item. intros half1 E1. apply satisfy_item. intros half2 E0.
      constructor; [ split; [ exact E1 | now apply nth_error_In in E0 ] | intros [S_a V_a] ].
      apply satisfy_item. intros half1' E1'. apply satisfy_item. intros other2 E2.
      constructor; [ split; [ exact E1' | now apply nth_error_In in E2 ]
                   | intros [S_b V_b]; constructor ].
    - apply satisfy_andthen.
      + apply satisfy_collect, incl_refl.
      + intros [S_list V_list]. constructor.
    - apply satisfy_andthen.
      + apply satisfy_collect, firstn_incl.
      + intros [S_list V_list]. constructor.
    - constructor. }
  destruct (calls_satisfy_In _ _ _ rec a b W I) as [E M].
  repeat split; try assumption.
  intros D. unfold body in I. rewrite D in I. exact I.
Qed.

(** The arrangement of a matrix in blocks, without its coefficients. *)
Inductive layout : Type :=
| one_block
| toeplitz_blocks (blocks : list layout)
| circulant_blocks (blocks : list layout) (size : nat).

Fixpoint layout_of (m : matrix) : layout :=
  match m with
  | Evaluated _ => one_block
  | BlockToeplitzMatrix blocks => toeplitz_blocks (map layout_of blocks)
  | BlockCirculantMatrix blocks size => circulant_blocks (map layout_of blocks) size
  end.

Lemma collect_matched rec (mesh1 : mesh) (subbodies : list mesh) :
  (forall a b r, rec a b = Some (Return r) -> layout_of (fst r) = layout_of (snd r)) ->
  forall S_list V_list r,
  map layout_of S_list = map layout_of V_list ->
  result rec (collect mesh1 subbodies S_list V_list) = Some (Return r) ->
  map layout_of (fst r) = map layout_of (snd r).
Proof.
  intros H. unfold result.
  induction subbodies as [ | s rest IH]; intros S_list V_list r E R.
  - cbn in R. injection R as <-. exact E.
  - cbn [collect] in R. unfold item, getitem in R.
    destruct (nth_error (submeshes mesh1) 0) as [first | ]; [ | discriminate ].
    cbn [andthen run] in R.
    destruct (rec first s) as [[[S_i V_i] | e] | ] eqn:C; try discriminate.
    destruct (run rec (collect mesh1 rest (S_list ++ [S_i]) (V_list ++ [V_i])))
      as [cs o] eqn:C'.
    cbn [snd] in R. subst o.
    apply (IH (S_list ++ [S_i]) (V_list ++ [V_i])).
    + pose proof (H _ _ _ C) as HC. cbn [fst snd] in HC.
      rewrite !map_app, E. cbn [map]. now rewrite HC.
    + now rewrite C'.
Qed.

Lemma body_matched rec solver args (mesh1 mesh2 : mesh) (r : matrix * matrix) :
  (forall a b r, rec a b = Some (Return r) -> layout_of (fst r) = layout_of (snd r)) ->
  result rec (body solver mesh1 mesh2 args) = Some (Return r) ->
  layout_of (fst r) = layout_of (snd r).
Proof.
  intros H. unfold result, body. destruct (dispatch mesh1 mesh2).
  - unfold item, getitem.
    destruct (nth_error (submeshes mesh1) 0) as [half1 | ]; [ | discriminate ].
    destruct (nth_error (submeshes mesh2) 0) as [half2 | ]; [ | discriminate ].
    cbn [andthen run].
    destruct (rec half1 half2) as [[[S_a V_a] | e] | ] eqn:Ca; try discriminate.
    destruct (nth_error (submeshes mesh2) 1) as [other2 | ]; [ | discriminate ].
    cbn [andthen run].
    destruct (rec half1 other2) as [[[S_b V_b] | e] | ] eqn:Cb; try discriminate.
    pose proof (H _ _ _ Ca) as Ha. pose proof (H _ _ _ Cb) as Hb. cbn [fst snd] in Ha, Hb.
    cbn. intros [= <-]. cbn. now rewrite Ha, Hb.
  - rewrite run_andthen.
    destruct (run rec (collect mesh1 (submeshes mesh2) [] [])) as [cs [[[Sl Vl] | e] | ]] eqn:C;
      try discriminate.
    cbn. intros [= <-]. cbn. f_equal.
    apply (collect_matched rec mesh1 (submeshes mesh2) H [] [] (Sl, Vl) eq_refl).
    unfold result. now rewrite C.
  - rewrite run_andthen.
    destruct (run rec (collect mesh1 (firstn (nb_submeshes mesh2 / 2 + 1) (submeshes mesh2))
                         [] [])) as [cs [[[Sl Vl] | e] | ]] eqn:C; try discriminate.
    cbn. intros [= <-]. cbn. f_equal.
    apply (collect_matched rec mesh1
             (firstn (nb_submeshes mesh2 / 2 + 1) (submeshes mesh2)) H [] [] (Sl, Vl) eq_refl).
    unfold result. now rewrite C.
  - cbn. intros [= <-]. reflexivity.
Qed.

Lemma assemble_matched solver args (depth : nat) :
  forall mesh1 mesh2 r,
  assemble depth solver args mesh1 mesh2 = Some (Return r) ->
  layout_of (fst r) = layout_of (snd r).
Proof.
  induction depth as [ | depth IH]; intros mesh1 mesh2 r E; [ discriminate | ].
  cbn [assemble] in E. apply (body_matched _ _ _ _ _ _ IH E).
Qed.

(** The two matrices the function returns are a matched pair: S and V have
    the same arrangement in blocks, at every level. *)
Theorem matched_pair solver args (mesh1 mesh2 : mesh) (S_matrix V_matrix : matrix) :
  build_matrices_with_symmetries solver mesh1 mesh2 args = Return (S_matrix, V_matrix) ->
  layout_of S_matrix = layout_of V_matrix.
Proof.
  unfold build_matrices_with_symmetries. intros E.
  destruct (assemble (height mesh2) solver args mesh1 mesh2) as [o | ] eqn:A;
    [ | discriminate ].
  subst o. apply (assemble_matched _ _ _ _ _ _ A).
Qed.

(** A mesh is complete when every collection of a symmetric class in its
    tree has at least two sub-meshes, as the constructors make them. *)
Fixpoint complete (m : mesh) : bool :=
  match m with
  | Mesh _ _ _ => true
  | Collection _ _ cls l =>
      match cls with
      | CollectionOfMeshes => true
      | _ => (2 <=? List.length l)%nat
      end && forallb complete l
  end.

Lemma complete_submesh (m s : mesh) : complete m = true -> In s (submeshes m) ->
  complete s = true.
Proof.
  destruct m as [i n g | i n k l]; cbn [submeshes complete]; [ intros _ [] | ].
  intros C I. apply andb_prop in C. destruct C as [_ C].
  rewrite forallb_forall in C. now apply C.
Qed.

Lemma complete_first (m : mesh) : complete m = true ->
  complete (hd m (submeshes m)) = true.
Proof.
  intros C. destruct (submeshes m) as [ | s r] eqn:E; [ exact C | ].
  apply (complete_submesh m s C). rewrite E. now left.
Qed.

Lemma complete_symmetric (m : mesh) :
  complete m = true ->
  isinstance_ReflectionSymmetry m || isinstance_TranslationalSymmetry m
  || isinstance_AxialSymmetry m = true ->
  (2 <= nb_submeshes m)%nat.
Proof.
  unfold nb_submeshes.
  destruct m as [i n g | i n [ | p | t | a] l];
    cbn [complete submeshes isinstance_ReflectionSymmetry isinstance_TranslationalSymmetry
         isinstance_AxialSymmetry orb]; try discriminate;
    intros C _; apply andb_prop in C; destruct C as [C _]; now apply Nat.leb_le in C.
Qed.

Lemma dispatch_classes (mesh1 mesh2 : mesh) :
  match dispatch mesh1 mesh2 with
  | mirror_symmetry =>
      isinstance_ReflectionSymmetry mesh1 = true /\ isinstance_ReflectionSymmetry mesh2 = true
  | translational_symmetry =>
      isinstance_TranslationalSymmetry mesh1 = true
      /\ isinstance_TranslationalSymmetry mesh2 = true
  | rotation_symmetry => isinstance_AxialSymmetry mesh1 = true /\ is_ mesh1 mesh2 = true
  | evaluation => True
  end.
Proof.
  destruct (dispatch_tests mesh1 mesh2) as [M [T [R _]]].
  destruct (dispatch mesh1 mesh2).
  - apply proj1 in M. specialize (M eq_refl). unfold mirror_test in M.
    destruct mesh1 as [ | ? ? [ | | | ] ?]; try discriminate.
    destruct mesh2 as [ | ? ? [ | | | ] ?]; try discriminate. now split.
  - apply proj1 in T. specialize (T eq_refl). unfold translation_test in T.
    destruct mesh1 as [ | ? ? [ | | | ] ?]; try discriminate.
    destruct mesh2 as [ | ? ? [ | | | ] ?]; try discriminate. now split.
  - apply proj1 in R. specialize (R eq_refl). unfold rotation_test in R.
    destruct mesh1 as [ | ? ? [ | | | ] ?]; try discriminate. now split.
  - exact I.
Qed.

Lemma nonempty_of_two (m : mesh) : (2 <= nb_submeshes m)%nat -> submeshes m <> [].
Proof.
  unfold nb_submeshes. destruct (submeshes m); cbn; [ lia | discriminate ].
Qed.

Lemma function_branches solver args (mesh1 mesh2 : mesh) :
  let first := hd mesh1 (submeshes mesh1) in
  let gather (subbodies : list mesh) (build : list matrix -> matrix) :=
    obind (traverse (fun s => build_matrices_with_symmetries solver first s args) subbodies)
      (fun rs => Return (build (map fst rs), build (map snd rs))) in
  match dispatch mesh1 mesh2 with
  | mirror_symmetry =>
      submeshes mesh1 <> [] -> (2 <= nb_submeshes mesh2)%nat ->
      build_matrices_with_symmetries solver mesh1 mesh2 args
      = gather (firstn 2 (submeshes mesh2)) BlockToeplitzMatrix
  | translational_symmetry =>
      build_matrices_with_symmetries solver mesh1 mesh2 args
      = gather (submeshes mesh2) BlockToeplitzMatrix
  | rotation_symmetry =>
      submeshes mesh1 <> [] ->
      build_matrices_with_symmetries solver mesh1 mesh2 args
      = gather (firstn (nb_submeshes mesh2 / 2 + 1) (submeshes mesh2))
               (fun l => BlockCirculantMatrix l (nb_submeshes mesh1))
  | evaluation =>
      build_matrices_with_symmetries solver mesh1 mesh2 args
      = Return (evaluated (build_matrices solver mesh1 mesh2 args))
  end.
Proof.
  intros first gather. destruct (dispatch mesh1 mesh2) eqn:D.
  - intros N1 N2. now apply function_mirror.
  - pose proof (dispatch_translational_count _ _ D) as N.
    apply function_collect; [ unfold body; now rewrite D | ].
    unfold nb_submeshes in N.
    destruct (submeshes mesh2); [ now left | right ].
    destruct (submeshes mesh1); [ discriminate | congruence ].
  - intros N1.
    apply (function_collect solver mesh1 mesh2 args
             (firstn (nb_submeshes mesh2 / 2 + 1) (submeshes mesh2))
             (fun l => BlockCirculantMatrix l (nb_submeshes mesh1)));
      [ unfold body; now rewrite D | now right ].
  - now apply function_evaluation.
Qed.

Lemma function_complete solver args (h : nat) :
  forall mesh1 mesh2, (height mesh2 <= h)%nat ->
  complete mesh1 = true -> complete mesh2 = true ->
  exists r, build_matrices_with_symmetries solver mesh1 mesh2 args = Return r.
Proof.
  induction h as [ | h IH]; intros mesh1 mesh2 H C1 C2.
  - destruct mesh2; cbn in H; lia.
  - assert (V : forall l, incl l (submeshes mesh2) ->
      exists rs, traverse (fun s => build_matrices_with_symmetries solver
                                      (hd mesh1 (submeshes mesh1)) s args) l = Return rs).
    { intros l I.
      destruct (traverse_Return _ _ (fun s => build_matrices_with_symmetries solver
                  (hd mesh1 (submeshes mesh1)) s args) (fun _ _ => True) l) as [rs [E _]].
      - apply Forall_forall. intros s Hs. apply I in Hs.
        destruct (IH (hd mesh1 (submeshes mesh1)) s) as [r E].
        + apply height_submesh in Hs. lia.
        + now apply complete_first.
        + now apply (complete_submesh mesh2).
        + exists r. now split.
      - now exists rs. }
    pose proof (function_branches solver args mesh1 mesh2) as F.
    pose proof (dispatch_classes mesh1 mesh2) as K.
    cbv zeta in F. destruct (dispatch mesh1 mesh2).
    + destruct K as [K1 K2].
      assert (N1 : (2 <= nb_submeshes mesh1)%nat)
        by (apply complete_symmetric; [ exact C1 | now rewrite K1 ]).
      assert (N2 : (2 <= nb_submeshes mesh2)%nat)
        by (apply complete_symmetric; [ exact C2 | now rewrite K2 ]).
      rewrite F by (try apply nonempty_of_two; assumption).
      destruct (V (firstn 2 (submeshes mesh2)) (firstn_incl _ _ _)) as [rs ->].
      eexists. reflexivity.
    + rewrite F. destruct (V (submeshes mesh2) (incl_refl _)) as [rs ->].
      eexists. reflexivity.
    + destruct K as [K1 _].
      assert (N1 : (2 <= nb_submeshes mesh1)%nat).
      { apply complete_symmetric; [ exact C1 | ]. rewrite K1. now rewrite !orb_true_r. }
      rewrite F by (now apply nonempty_of_two).
      destruct (V (firstn (nb_submeshes mesh2 / 2 + 1) (submeshes mesh2))
                  (firstn_incl _ _ _)) as [rs ->].
      eexists. reflexivity.
    + rewrite F. eexists. reflexivity.
Qed.

(** On complete meshes no statement of the function raises an IndexError:
    reading [submeshes[0]] or [submeshes[1]] fails only on a symmetric
    collection with fewer than two sub-meshes.  What [build_matrices] or the
    constructors of the block matrices may raise is not part of the
    function and is not excluded here. *)
Theorem complete_meshes_raise_no_IndexError solver args (mesh1 mesh2 : mesh) :
  complete mesh1 = true -> complete mesh2 = true ->
  build_matrices_with_symmetries solver mesh1 mesh2 args <> Raise IndexError.
Proof.
  intros C1 C2.
  destruct (function_complete solver args _ mesh1 mesh2 (le_n _) C1 C2) as [r E].
  rewrite E. discriminate.
Qed.

(** When the first sub-mesh of [mesh1] is a mesh of the external library,
    every recursive call ends at once in [build_matrices]: the function
    returns the structured matrices of the blocks that [build_matrices]
    computes on the first sub-mesh of [mesh1] and the sub-meshes of [mesh2]
    it visits, two of them for a mirror symmetry, n for a translational
    symmetry of n sub-meshes and n/2 + 1 for the rotation symmetry. *)
Theorem blocks_of_plain_slices solver args (mesh1 mesh2 : mesh) (id : nat) (name : string)
    (g : geometry) :
  nth_error (submeshes mesh1) 0 = Some (Mesh id name g) ->
  let block (p : part) (s : mesh) :=
    Evaluated (coefficients_of p (build_matrices solver (Mesh id name g) s args)) in
  match dispatch mesh1 mesh2 with
  | mirror_symmetry =>
      (2 <= nb_submeshes mesh2)%nat ->
      build_matrices_with_symmetries solver mesh1 mesh2 args
      = Return (BlockToeplitzMatrix (map (block S_part) (firstn 2 (submeshes mesh2))),
                BlockToeplitzMatrix (map (block V_part) (firstn 2 (submeshes mesh2))))
  | translational_symmetry =>
      build_matrices_with_symmetries solver mesh1 mesh2 args
      = Return (BlockToeplitzMatrix (map (block S_part) (submeshes mesh2)),
                BlockToeplitzMatrix (map (block V_part) (submeshes mesh2)))
  | rotation_symmetry =>
      build_matrices_with_symmetries solver mesh1 mesh2 args
      = Return (BlockCirculantMatrix
                  (map (block S_part)
                       (firstn (nb_submeshes mesh2 / 2 + 1) (submeshes mesh2)))
                  (nb_submeshes mesh1),
                BlockCirculantMatrix
                  (map (block V_part)
                       (firstn (nb_submeshes mesh2 / 2 + 1) (submeshes mesh2)))
                  (nb_submeshes mesh1))
  | evaluation =>
      build_matrices_with_symmetries solver mesh1 mesh2 args
      = Return (evaluated (build_matrices solver mesh1 mesh2 args))
  end.
Proof.
  intros E block.
  assert (N : submeshes mesh1 <> []) by (destruct (submeshes mesh1); discriminate).
  assert (F1 : hd mesh1 (submeshes mesh1) = Mesh id name g)
    by (destruct (submeshes mesh1); [ discriminate | now injection E ]).
  assert (T : forall l,
    traverse (fun s => build_matrices_with_symmetries solver (Mesh id name g) s args) l
    = Return (map (fun s => evaluated (build_matrices solver (Mesh id name g) s args)) l)).
  { induction l as [ | s r IH]; [ reflexivity | ]. cbn [traverse map].
    rewrite IH, function_evaluation; [ reflexivity | ].
    unfold dispatch, mirror_test, translation_test, rotation_test. reflexivity. }
  pose proof (function_branches solver args mesh1 mesh2) as F. cbv zeta in F.
  rewrite F1 in F.
  destruct (dispatch mesh1 mesh2).
  - intros N2. rewrite (F N N2), T. cbn [obind]. now rewrite !map_map.
  - rewrite F, T. cbn [obind]. now rewrite !map_map.
  - rewrite (F N), T. cbn [obind]. now rewrite !map_map.
  - exact F.
Qed.

(** The translational branch depends on the order of the two meshes:
    [np.allclose] weighs its tolerance by its second argument, so that two
    translations at the edge of the tolerance are close in one order and not
    in the other, and exchanging the meshes goes from the translational
    branch to the evaluation. *)
Theorem translational_branch_depends_on_order :
  ~ (forall mesh1 mesh2,
       dispatch mesh1 mesh2 = translational_symmetry ->
       dispatch mesh2 mesh1 = translational_symmetry)
  /\ ~ (forall t1 t2, allclose t1 t2 = allclose t2 t1).
Proof.
  split.
  - intros H.
    specialize (H (Collection 1 "a" (TranslationalSymmetry [1; 0; 0]%Q) [])
                  (Collection 2 "b"
                     (TranslationalSymmetry
                        [100001001005005 # 100000000000000; 0; 0]%Q) [])
                  eq_refl).
    discriminate H.
  - intros H.
    specialize (H [1]%Q [100001001005005 # 100000000000000]%Q). discriminate H.
Qed.

End Assembler.

(** [use_symmetries(build_matrices)]: the decorator returns the function
    [build_matrices_with_symmetries] that wraps [build_matrices]. *)
Definition use_symmetries (Solver Args Coefficients : Type)
    (Plane_eq : Plane -> Plane -> bool)
    (build_matrices : Solver -> mesh -> mesh -> Args -> Coefficients * Coefficients) :=
  build_matrices_with_symmetries Solver Args Coefficients Plane_eq build_matrices.

Arguments Evaluated {Coefficients} c.
Arguments BlockToeplitzMatrix {Coefficients} blocks.
Arguments BlockCirculantMatrix {Coefficients} blocks size.
Arguments entries {Coefficients} c.
Arguments grid {Coefficients} rows.
Arguments expand {Coefficients} m.
Arguments evaluated {Coefficients} r.
Arguments Done {Coefficients A} a.
Arguments Throw {Coefficients A} e.
Arguments Recurse {Coefficients A} mesh1 mesh2 k.
Arguments body {Solver Args Coefficients} Plane_eq build_matrices solver mesh1 mesh2 args.
Arguments run {Coefficients A} rec p.
Arguments calls {Coefficients A} rec p.
Arguments returning {Coefficients} answer mesh1 mesh2.
Arguments build_matrices_with_symmetries {Solver Args Coefficients}
  Plane_eq build_matrices solver mesh1 mesh2 args.
Arguments brute_force {Solver Args Coefficients} build_matrices p solver args mesh1 mesh2.
Arguments blocks {Coefficients} d.

(** ** The constructors *)

Local Open Scope string_scope.

(** The copy number [i] of a slice in an AxialSymmetry of [nb] repetitions,
    made from the new object [c]. *)
Definition rotated_copy (mesh_slice : mesh) (point : list Q) (nb : Z) (i : nat) (c : mesh)
    : mesh :=
  apply (translate point)
    (apply (rotate_z (inject_Z (2 * Z.of_nat i) / inject_Z (nb + 1)))
      (apply (translate (neg point))
        (set_name ("rotation_" ++ str i ++ "_of_" ++ name_of mesh_slice) c))).

(** The copy number [i] of a slice in a TranslationalSymmetry. *)
Definition translated_copy (mesh_slice : mesh) (translation : list Q) (i : nat) (c : mesh)
    : mesh :=
  apply (translate (scale (inject_Z (Z.of_nat i)) translation))
    (set_name ("repetition_" ++ str i ++ "_of_" ++ name_of mesh_slice) c).

(** The slice [from_profile] hands to the constructor: the quadrilaterals
    between the profile and its copy rotated by [angle], with the duplicate
    vertices merged and the triangles healed. *)
Definition revolution_slice (profile_array : ndarray) (n : nat) (name : string) (angle : Q)
    (id : nat) : mesh :=
  apply heal_triangles
    (apply merge_duplicates
      (Mesh id ("slice_of_" ++ name ++ "_mesh")
         (from_arrays
            (concatenate (array profile_array)
               (vertices_of (moved (rotate_z angle) (from_arrays (array profile_array) []))))
            (map (fun i => [i; i + n; i + n + 1; i + 1])%nat (seq 0 (n - 1)))))).

Local Open Scope Z_scope.

Section ConstructorProperties.

Variable format_name : mesh -> string -> string.

Lemma for_each_Return (A B : Type) (body : A -> alloc B) (Q : A -> B -> Prop) (l : list A) :
  (forall x next, exists y next', body x next = Return (y, next') /\ Q x y) ->
  forall next, exists ys next', for_each l body next = Return (ys, next') /\ Forall2 Q l ys.
Proof.
  intros H. induction l as [ | x r IH]; intros next; cbn [for_each].
  - exists [], next. split; [ reflexivity | constructor ].
  - destruct (H x next) as [y [next1 [E q]]]. destruct (IH next1) as [ys [next2 [Es qs]]].
    exists (y :: ys), next2. unfold bind, ret. rewrite E, Es.
    split; [ reflexivity | now constructor ].
Qed.

Lemma Forall2_nth_error (A B : Type) (Q : A -> B -> Prop) (l : list A) (ys : list B)
    (k : nat) (x : A) :
  Forall2 Q l ys -> nth_error l k = Some x -> exists y, nth_error ys k = Some y /\ Q x y.
Proof.
  intros F. revert k. induction F as [ | x' y l ys q _ IH]; intros [ | k] E; cbn in E;
    try discriminate.
  - injection E as <-. exists y. now split.
  - now apply IH.
Qed.

Lemma Forall2_same_length (A B : Type) (Q : A -> B -> Prop) (l : list A) (ys : list B) :
  Forall2 Q l ys -> List.length ys = List.length l.
Proof.
  induction 1; cbn; congruence.
Qed.

Lemma nth_error_seq (start len k : nat) :
  (k < len)%nat -> nth_error (seq start len) k = Some (start + k)%nat.
Proof.
  revert start k. induction len as [ | len IH]; intros start k H; [ lia | ].
  destruct k as [ | k]; cbn [seq nth_error]; [ f_equal; lia | ].
  rewrite IH by lia. f_equal. lia.
Qed.

Lemma AxialSymmetry_init_returns (mesh_slice : mesh) (point : list Q) (nb : Z)
    (name : option string) (next : nat) :
  1 <= nb -> List.length point = 3%nat ->
  exists id nm copies next',
    AxialSymmetry_init format_name mesh_slice point (Int nb) name next
      = Return (Collection id nm (AxialSymmetry point) (mesh_slice :: copies), next')
    /\ List.length copies = Z.to_nat nb
    /\ forall i, (1 <= i <= Z.to_nat nb)%nat ->
         exists k, nth_error (mesh_slice :: copies) i
                   = Some (rotated_copy mesh_slice point nb i (fst (copy_from mesh_slice k))).
Proof.
  intros N P. unfold AxialSymmetry_init.
  destruct (for_each_Return _ _
    (fun i => new_slice <- copy mesh_slice ;;
      let new_slice :=
        set_name ("rotation_" ++ str i ++ "_of_" ++ name_of mesh_slice)%string new_slice in
      let new_slice := apply (translate (neg point)) new_slice in
      let new_slice :=
        apply (rotate_z (inject_Z (2 * Z.of_nat i) / inject_Z (nb + 1))) new_slice in
      ret (apply (translate point) new_slice))
    (fun i y => exists k, y = rotated_copy mesh_slice point nb i (fst (copy_from mesh_slice k)))
    (seq 1 (Z.to_nat nb))) with (next := S next) as [copies [next' [E F]]].
  { intros i k. unfold bind, copy, ret.
    destruct (copy_from mesh_slice k) as [c k'] eqn:C.
    eexists. eexists. split; [ reflexivity | ]. exists k. now rewrite C. }
  apply Z.leb_le in N. apply Nat.eqb_eq in P.
  unfold bind, fresh, assert, ret in *. rewrite N, P, E.
  destruct name as [nm | ]; cbn [default_name set_name];
    (eexists; eexists; exists copies, next'; split; [ reflexivity | ]; split;
     [ rewrite (Forall2_same_length _ _ _ _ _ F); apply length_seq
     | intros [ | i] H; [ lia | ]; cbn [nth_error];
       destruct (Forall2_nth_error _ _ _ _ _ i (S i) F) as [y [Ey [k ->]]];
       [ rewrite nth_error_seq by lia; reflexivity | ];
       exists k; exact Ey ]).
Qed.

Lemma AxialSymmetry_init_raises (mesh_slice : mesh) (point : list Q) (nb : number)
    (name : option string) (next : nat) :
  (forall n, nb = Int n -> n < 1 \/ List.length point <> 3%nat) ->
  AxialSymmetry_init format_name mesh_slice point nb name next = Raise AssertionError.
Proof.
  intros H. unfold AxialSymmetry_init, bind, fresh, assert, ret, raise.
  destruct nb as [n | q]; [ | reflexivity ].
  destruct (1 <=? n) eqn:N; [ | reflexivity ].
  destruct (H n eq_refl) as [L | L]; [ apply Z.leb_le in N; lia | ].
  apply Nat.eqb_neq in L. now rewrite L.
Qed.

Lemma TranslationalSymmetry_init_returns (mesh_slice : mesh) (translation : list Q) (nb : Z)
    (name : option string) (next : nat) (tz : Q) :
  1 <= nb -> List.length translation = 3%nat ->
  nth_error translation 2 = Some tz -> Qeq_bool tz 0 = true ->
  exists id nm copies next',
    TranslationalSymmetry_init format_name mesh_slice translation (Int nb) name next
      = Return (Collection id nm (TranslationalSymmetry translation) (mesh_slice :: copies),
                next')
    /\ List.length copies = Z.to_nat nb
    /\ forall i, (1 <= i <= Z.to_nat nb)%nat ->
         exists k, nth_error (mesh_slice :: copies) i
                   = Some (translated_copy mesh_slice translation i
                             (fst (copy_from mesh_slice k))).
Proof.
  intros N P T Z0. unfold TranslationalSymmetry_init.
  destruct (for_each_Return _ _
    (fun i => new_slice <- copy mesh_slice ;;
      let new_slice :=
        set_name ("repetition_" ++ str i ++ "_of_" ++ name_of mesh_slice)%string new_slice in
      ret (apply (translate (scale (inject_Z (Z.of_nat i)) translation)) new_slice))
    (fun i y => exists k, y = translated_copy mesh_slice translation i
                                (fst (copy_from mesh_slice k)))
    (seq 1 (Z.to_nat nb))) with (next := S next) as [copies [next' [E F]]].
  { intros i k. unfold bind, copy, ret.
    destruct (copy_from mesh_slice k) as [c k'] eqn:C.
    eexists. eexists. split; [ reflexivity | ]. exists k. now rewrite C. }
  apply Z.leb_le in N. apply Nat.eqb_eq in P.
  unfold bind, fresh, assert, ret, z_of, lift, getitem in *. rewrite N, P, T, Z0, E.
  destruct name as [nm | ]; cbn [default_name set_name];
    (eexists; eexists; exists copies, next'; split; [ reflexivity | ]; split;
     [ rewrite (Forall2_same_length _ _ _ _ _ F); apply length_seq
     | intros [ | i] H; [ lia | ]; cbn [nth_error];
       destruct (Forall2_nth_error _ _ _ _ _ i (S i) F) as [y [Ey [k ->]]];
       [ rewrite nth_error_seq by lia; reflexivity | ];
       exists k; exact Ey ]).
Qed.

Lemma TranslationalSymmetry_init_raises (mesh_slice : mesh) (translation : list Q)
    (nb : number) (name : option string) (next : nat) :
  (forall n, nb = Int n ->
     n < 1 \/ List.length translation <> 3%nat
     \/ exists tz, nth_error translation 2 = Some tz /\ Qeq_bool tz 0 = false) ->
  TranslationalSymmetry_init format_name mesh_slice translation nb name next
    = Raise AssertionError.
Proof.
  intros H.
  unfold TranslationalSymmetry_init, bind, fresh, assert, ret, raise, z_of, lift, getitem.
  destruct nb as [n | q]; [ | reflexivity ].
  destruct (1 <=? n) eqn:N; [ | reflexivity ].
  destruct (Nat.eqb (List.length translation) 3) eqn:L; [ | reflexivity ].
  destruct (H n eq_refl) as [C | [C | [tz [T Z0]]]].
  - apply Z.leb_le in N. lia.
  - apply Nat.eqb_eq in L. contradiction.
  - now rewrite T, Z0.
Qed.

Lemma ReflectionSymmetry_init_returns (half : mesh) (plane : Plane) (name : option string)
    (next : nat) (nz : Q) :
  nth_error (normal plane) 2 = Some nz -> Qeq_bool nz 0 = true ->
  exists nm,
    ReflectionSymmetry_init format_name half plane name next
    = Return (Collection next nm (ReflectionSymmetry plane)
                [half;
                 set_name ("mirror_of_" ++ name_of half)%string
                   (apply (mirror plane) (fst (copy_from half (S next))))],
              snd (copy_from half (S next))).
Proof.
  intros T Z0.
  unfold ReflectionSymmetry_init, bind, fresh, assert, ret, z_of, lift, getitem, copy.
  rewrite T, Z0. destruct (copy_from half (S next)) as [c k].
  destruct name as [nm | ]; cbn [default_name set_name fst snd]; eexists; reflexivity.
Qed.

Lemma ReflectionSymmetry_init_raises (half : mesh) (plane : Plane) (name : option string)
    (next : nat) (nz : Q) :
  nth_error (normal plane) 2 = Some nz -> Qeq_bool nz 0 = false ->
  ReflectionSymmetry_init format_name half plane name next = Raise AssertionError.
Proof.
  intros T Z0.
  unfold ReflectionSymmetry_init, bind, fresh, assert, ret, z_of, lift, getitem.
  now rewrite T, Z0.
Qed.

Lemma ReflectionSymmetry_init_no_normal (half : mesh) (plane : Plane) (name : option string)
    (next : nat) :
  nth_error (normal plane) 2 = None ->
  ReflectionSymmetry_init format_name half plane name next = Raise IndexError.
Proof.
  intros T.
  unfold ReflectionSymmetry_init, bind, fresh, assert, ret, z_of, lift, getitem.
  now rewrite T.
Qed.

Lemma from_profile_eq (profile : profile_arg) (z_range point : list Q) (nphi : Z)
    (name : option string) (next n : nat) :
  let name' := match name with None => "axisymmetric_mesh"%string | Some s => s end in
  let profile_array := profile_array_of profile z_range in
  shape profile_array = [n; 3%nat] -> nphi <> 0 ->
  AxialSymmetry_from_profile format_name profile z_range point (Int nphi) name next =
  AxialSymmetry_init format_name
    (revolution_slice profile_array n name' (2 / inject_Z nphi) (S next))
    point (Int (nphi - 1)) (Some name') (S (S next)).
Proof.
  intros name' profile_array Sh Z0.
  unfold AxialSymmetry_from_profile. fold profile_array. fold name'.
  unfold bind at 1. unfold assert at 1. rewrite Sh. cbn [List.length Nat.eqb ret].
  unfold bind at 1. unfold lift at 1. cbn [getitem nth_error].
  unfold bind at 1. unfold assert at 1. cbn [Nat.eqb ret].
  unfold bind at 1. unfold lift at 1. cbn [getitem nth_error].
  unfold bind at 1. unfold lift at 1. unfold slice_angle.
  apply Z.eqb_neq in Z0. rewrite Z0.
  unfold bind at 1. unfold fresh at 1.
  unfold bind at 1. unfold fresh at 1.
  reflexivity.
Qed.

Lemma from_profile_asserts (profile : profile_arg) (z_range point : list Q) (nphi : number)
    (name : option string) (next : nat) :
  let profile_array := profile_array_of profile z_range in
  List.length (shape profile_array) <> 2%nat
  \/ (exists d1, nth_error (shape profile_array) 1 = Some d1 /\ d1 <> 3%nat) ->
  AxialSymmetry_from_profile format_name profile z_range point nphi name next
  = Raise AssertionError.
Proof.
  intros profile_array H.
  unfold AxialSymmetry_from_profile. fold profile_array.
  unfold bind at 1. unfold assert at 1.
  destruct (Nat.eqb (List.length (shape profile_array)) 2) eqn:L; [ | reflexivity ].
  destruct H as [H | [d1 [E D]]]; [ apply Nat.eqb_eq in L; contradiction | ].
  cbn [ret]. unfold bind at 1. unfold lift at 1. unfold getitem. rewrite E.
  unfold bind at 1. unfold assert at 1. apply Nat.eqb_neq in D. now rewrite D.
Qed.

Lemma from_profile_fails (profile : profile_arg) (z_range point : list Q) (nphi : number)
    (name : option string) (next : nat) :
  (forall n, nphi = Int n -> n < 2) ->
  exists e, AxialSymmetry_from_profile format_name profile z_range point nphi name next
            = Raise e.
Proof.
  intros H. unfold AxialSymmetry_from_profile.
  set (profile_array := profile_array_of profile z_range).
  unfold bind at 1. destruct (assert _ next) as [[[] k1] | e]; [ | eauto ].
  unfold bind at 1. destruct (lift _ k1) as [[d1 k2] | e]; [ | eauto ].
  unfold bind at 1. destruct (assert _ k2) as [[[] k3] | e]; [ | eauto ].
  unfold bind at 1. destruct (lift _ k3) as [[n k4] | e]; [ | eauto ].
  unfold bind at 1. destruct (lift _ k4) as [[angle k5] | e]; [ | eauto ].
  unfold bind at 1. unfold fresh at 1.
  unfold bind at 1. unfold fresh at 1.
  exists AssertionError. apply AxialSymmetry_init_raises.
  intros m E. left. destruct nphi as [z | q]; cbn [sub1] in E; [ | discriminate ].
  injection E as <-. specialize (H z eq_refl). lia.
Qed.

Lemma angle_increasing (nb : Z) (i j : nat) :
  1 <= nb -> (i < j)%nat ->
  (inject_Z (2 * Z.of_nat i) / inject_Z (nb + 1)
   < inject_Z (2 * Z.of_nat j) / inject_Z (nb + 1))%Q.
Proof.
  intros N L. unfold Qdiv. apply Qmult_lt_compat_r.
  - apply Qinv_lt_0_compat. change 0%Q with (inject_Z 0). rewrite <- Zlt_Qlt. lia.
  - rewrite <- Zlt_Qlt. lia.
Qed.

Lemma angle_step (nphi : Z) (i : nat) :
  nphi <> 0 ->
  (inject_Z (2 * Z.of_nat (S i)) / inject_Z nphi - inject_Z (2 * Z.of_nat i) / inject_Z nphi
   == 2 / inject_Z nphi)%Q.
Proof.
  intros N. rewrite Nat2Z.inj_succ. unfold Z.succ.
  rewrite !inject_Z_mult, inject_Z_plus. field.
  intros E. apply N. apply (proj1 (inject_Z_injective nphi 0)). exact E.
Qed.

Lemma ReflectionSymmetry_init_count half plane name next self next' :
  ReflectionSymmetry_init format_name half plane name next = Return (self, next') ->
  nb_submeshes self = 2%nat.
Proof.
  intros E. destruct (nth_error (normal plane) 2) as [nz | ] eqn:T.
  - destruct (Qeq_bool nz 0) eqn:Z0.
    + destruct (ReflectionSymmetry_init_returns half plane name next nz T Z0) as [nm R].
      rewrite R in E. now injection E as <- _.
    + rewrite (ReflectionSymmetry_init_raises half plane name next nz T Z0) in E.
      discriminate.
  - rewrite (ReflectionSymmetry_init_no_normal half plane name next T) in E. discriminate.
Qed.

Lemma TranslationalSymmetry_init_count mesh_slice translation nb name next self next' :
  TranslationalSymmetry_init format_name mesh_slice translation nb name next
    = Return (self, next') ->
  exists n, nb = Int n /\ 1 <= n /\ nb_submeshes self = (Z.to_nat n + 1)%nat.
Proof.
  intros E.
  destruct nb as [n | q];
    [ | rewrite TranslationalSymmetry_init_raises in E; [ discriminate | discriminate ] ].
  exists n. split; [ reflexivity | ].
  destruct (Z_lt_le_dec n 1) as [N | N];
    [ rewrite TranslationalSymmetry_init_raises in E; [ discriminate | ];
      intros m [= <-]; now left | ].
  destruct (Nat.eq_dec (List.length translation) 3) as [P | P];
    [ | rewrite TranslationalSymmetry_init_raises in E; [ discriminate | ];
        intros m [= <-]; right; now left ].
  destruct (nth_error translation 2) as [tz | ] eqn:T;
    [ | apply nth_error_None in T; lia ].
  destruct (Qeq_bool tz 0) eqn:Z0;
    [ | rewrite TranslationalSymmetry_init_raises in E; [ discriminate | ];
        intros m [= <-]; right; right; now exists tz ].
  destruct (TranslationalSymmetry_init_returns mesh_slice translation n name next tz
              N P T Z0) as [id [nm [copies [k [R [L _]]]]]].
  rewrite R in E. injection E as <- _. unfold nb_submeshes. cbn. split; [ exact N | lia ].
Qed.

Lemma AxialSymmetry_init_count mesh_slice point nb name next self next' :
  AxialSymmetry_init format_name mesh_slice point nb name next = Return (self, next') ->
  exists n, nb = Int n /\ 1 <= n /\ nb_submeshes self = (Z.to_nat n + 1)%nat.
Proof.
  intros E.
  destruct nb as [n | q];
    [ | rewrite AxialSymmetry_init_raises in E; [ discriminate | discriminate ] ].
  exists n. split; [ reflexivity | ].
  destruct (Z_lt_le_dec n 1) as [N | N];
    [ rewrite AxialSymmetry_init_raises in E; [ discriminate | ];
      intros m [= <-]; now left | ].
  destruct (Nat.eq_dec (List.length point) 3) as [P | P];
    [ | rewrite AxialSymmetry_init_raises in E; [ discriminate | ];
        intros m [= <-]; now right ].
  destruct (AxialSymmetry_init_returns mesh_slice point n name next N P)
    as [id [nm [copies [k [R [L _]]]]]].
  rewrite R in E. injection E as <- _. unfold nb_submeshes. cbn. split; [ exact N | lia ].
Qed.

Lemma bind_Return (A B : Type) (x : alloc A) (f : A -> alloc B) (next : nat)
    (r : B * nat) :
  bind x f next = Return r -> exists a k, x next = Return (a, k) /\ f a k = Return r.
Proof.
  unfold bind. destruct (x next) as [[a k] | e]; [ eauto | discriminate ].
Qed.

Lemma lift_Return (A : Type) (o : outcome A) (next : nat) (a : A) (k : nat) :
  lift o next = Return (a, k) -> o = Return a.
Proof.
  unfold lift. destruct o; [ now intros [= -> _] | discriminate ].
Qed.

(** Whenever [join] returns, the mesh it returns has one sub-mesh more than
    its first argument: the number of sub-meshes of the argument is passed
    as the number of repetitions. *)
Lemma join_count (meshes : list mesh) (next : nat) (self : mesh) (next' : nat) :
  TranslationalSymmetry_join format_name meshes next = Return (self, next') ->
  exists first, nth_error meshes 0 = Some first
                /\ nb_submeshes self = (nb_submeshes first + 1)%nat.
Proof.
  unfold TranslationalSymmetry_join. intros E.
  apply bind_Return in E. destruct E as [_ [k1 [_ E]]].
  apply bind_Return in E. destruct E as [close [k2 [_ E]]].
  apply bind_Return in E. destruct E as [_ [k3 [_ E]]].
  apply bind_Return in E. destruct E as [same [k4 [_ E]]].
  apply bind_Return in E. destruct E as [_ [k5 [_ E]]].
  apply bind_Return in E. destruct E as [others [k6 [_ E]]].
  apply bind_Return in E. destruct E as [first [k7 [G E]]].
  apply lift_Return in G. unfold getitem in G.
  destruct (nth_error meshes 0) as [m | ] eqn:M; [ | discriminate ].
  injection G as ->.
  apply bind_Return in E. destruct E as [s0 [k8 [_ E]]].
  apply bind_Return in E. destruct E as [start [k9 [_ E]]].
  apply bind_Return in E. destruct E as [mesh_slice [k10 [_ E]]].
  apply bind_Return in E. destruct E as [first0 [k11 [_ E]]].
  apply bind_Return in E. destruct E as [t [k12 [_ E]]].
  apply bind_Return in E. destruct E as [first1 [k13 [G E]]].
  apply lift_Return in G. unfold getitem in G. rewrite M in G. injection G as <-.
  apply TranslationalSymmetry_init_count in E. destruct E as [n [[= <-] [_ C]]].
  exists first. split; [ reflexivity | ]. rewrite C, Nat2Z.id. reflexivity.
Qed.

(** C8.  For a slice, a point of the axis with three coordinates and a number
    of repetitions n >= 1, the constructor of AxialSymmetry returns a mesh of
    n + 1 sub-meshes: the first is the slice itself, and sub-mesh i, for i
    from 1 to n, is a copy of the slice translated by the opposite of the
    point, rotated by 2 i pi / (n + 1) about the vertical axis, and
    translated back by the point; the angles increase with i. *)
Theorem axial_symmetry_slices (mesh_slice : mesh) (point : list Q) (n : Z)
    (name : option string) (next : nat) :
  1 <= n -> List.length point = 3%nat ->
  exists self next',
    AxialSymmetry_init format_name mesh_slice point (Int n) name next = Return (self, next')
    /\ isinstance_AxialSymmetry self = true
    /\ nb_submeshes self = (Z.to_nat n + 1)%nat
    /\ nth_error (submeshes self) 0 = Some mesh_slice
    /\ (forall i, (1 <= i <= Z.to_nat n)%nat ->
        exists k,
          nth_error (submeshes self) i =
          Some (apply (translate point)
                 (apply (rotate_z (inject_Z (2 * Z.of_nat i) / inject_Z (n + 1)))
                   (apply (translate (neg point))
                     (set_name ("rotation_" ++ str i ++ "_of_" ++ name_of mesh_slice)%string
                        (fst (copy_from mesh_slice k)))))))
    /\ (forall i j, (i < j)%nat ->
        (inject_Z (2 * Z.of_nat i) / inject_Z (n + 1)
         < inject_Z (2 * Z.of_nat j) / inject_Z (n + 1))%Q).
Proof.
  intros N P.
  destruct (AxialSymmetry_init_returns mesh_slice point n name next N P)
    as [id [nm [copies [next' [E [L C]]]]]].
  eexists. exists next'. split; [ exact E | ].
  split; [ reflexivity | ]. split; [ unfold nb_submeshes; cbn; lia | ].
  split; [ reflexivity | ]. split; [ exact C | ].
  intros i j. now apply angle_increasing.
Qed.

(** C9.  On a profile whose array has three columns and for nphi >= 2,
    [from_profile] builds one slice between the profile and its copy rotated
    by 2 pi / nphi, with the duplicate vertices merged and the triangles
    healed, and calls the constructor with nphi - 1 repetitions: the mesh it
    returns has exactly nphi sub-meshes, the first is the slice, sub-mesh i is
    the slice rotated by 2 i pi / nphi, each one 2 pi / nphi further than its
    predecessor, and nphi such steps make the full circle. *)
Theorem from_profile_revolution (profile : profile_arg) (z_range point : list Q) (nphi : Z)
    (name : option string) (next n : nat) :
  let name' := match name with None => "axisymmetric_mesh"%string | Some s => s end in
  let profile_array := profile_array_of profile z_range in
  let body_slice :=
    revolution_slice profile_array n name' (2 / inject_Z nphi) (S next) in
  shape profile_array = [n; 3%nat] -> 2 <= nphi -> List.length point = 3%nat ->
  AxialSymmetry_from_profile format_name profile z_range point (Int nphi) name next =
    AxialSymmetry_init format_name body_slice point (Int (nphi - 1)) (Some name')
      (S (S next))
  /\ exists self next',
      AxialSymmetry_from_profile format_name profile z_range point (Int nphi) name next
        = Return (self, next')
      /\ isinstance_AxialSymmetry self = true
      /\ nb_submeshes self = Z.to_nat nphi
      /\ nth_error (submeshes self) 0 = Some body_slice
      /\ (forall i, (1 <= i < Z.to_nat nphi)%nat ->
          exists k,
            nth_error (submeshes self) i =
            Some (apply (translate point)
                   (apply (rotate_z (inject_Z (2 * Z.of_nat i) / inject_Z nphi))
                     (apply (translate (neg point))
                       (set_name ("rotation_" ++ str i ++ "_of_" ++ name_of body_slice)%string
                          (fst (copy_from body_slice k)))))))
      /\ (forall i, (inject_Z (2 * Z.of_nat (S i)) / inject_Z nphi
                     - inject_Z (2 * Z.of_nat i) / inject_Z nphi
                     == 2 / inject_Z nphi)%Q)
      /\ (inject_Z nphi * (2 / inject_Z nphi) == 2)%Q.
Proof.
  intros name' profile_array body_slice Sh N P.
  assert (Z0 : nphi <> 0) by lia.
  pose proof (from_profile_eq profile z_range point nphi name next n Sh Z0) as E.
  fold name' profile_array body_slice in E. split; [ exact E | ].
  destruct (AxialSymmetry_init_returns body_slice point (nphi - 1) (Some name') (S (S next)))
    as [id [nm [copies [next' [R [L C]]]]]]; [ lia | exact P | ].
  eexists. exists next'. rewrite E. split; [ exact R | ].
  split; [ reflexivity | ]. split; [ unfold nb_submeshes; cbn; lia | ].
  split; [ reflexivity | ]. split.
  - intros i H. destruct (C i) as [k Ek]; [ lia | ]. exists k.
    cbn [submeshes]. rewrite Ek. unfold rotated_copy.
    now replace (nphi - 1 + 1) with nphi by lia.
  - split; [ intros i; now apply angle_step | ].
    field. intros A. apply Z0. apply (proj1 (inject_Z_injective nphi 0)). exact A.
Qed.

(** C10.  A mesh that a constructor of the module returns has at least two
    sub-meshes: exactly two for a ReflectionSymmetry, and nb_repetitions + 1
    for a TranslationalSymmetry and an AxialSymmetry, whose constructors fail
    unless nb_repetitions is an integer at least 1; so [from_profile], which
    passes nphi - 1, fails for every nphi below 2. *)
Theorem at_least_two_submeshes :
  (forall half plane name next self next',
     ReflectionSymmetry_init format_name half plane name next = Return (self, next') ->
     nb_submeshes self = 2%nat)
  /\ (forall mesh_slice translation nb name next self next',
      TranslationalSymmetry_init format_name mesh_slice translation nb name next
        = Return (self, next') ->
      exists n, nb = Int n /\ 1 <= n /\ nb_submeshes self = (Z.to_nat n + 1)%nat
                /\ (2 <= nb_submeshes self)%nat)
  /\ (forall mesh_slice point nb name next self next',
      AxialSymmetry_init format_name mesh_slice point nb name next = Return (self, next') ->
      exists n, nb = Int n /\ 1 <= n /\ nb_submeshes self = (Z.to_nat n + 1)%nat
                /\ (2 <= nb_submeshes self)%nat)
  /\ (forall mesh_slice translation nb name next,
      (forall n, nb = Int n -> n < 1) ->
      TranslationalSymmetry_init format_name mesh_slice translation nb name next
        = Raise AssertionError)
  /\ (forall mesh_slice point nb name next,
      (forall n, nb = Int n -> n < 1) ->
      AxialSymmetry_init format_name mesh_slice point nb name next = Raise AssertionError)
  /\ (forall profile z_range point nphi name next,
      (forall n, nphi = Int n -> n < 2) ->
      exists e,
        AxialSymmetry_from_profile format_name profile z_range point nphi name next
        = Raise e).
Proof.
  repeat split.
  - intros half plane name next self next'. apply ReflectionSymmetry_init_count.
  - intros mesh_slice translation nb name next self next' H.
    destruct (TranslationalSymmetry_init_count _ _ _ _ _ _ _ H) as [n [E [N C]]].
    exists n. repeat split; try assumption. lia.
  - intros mesh_slice point nb name next self next' H.
    destruct (AxialSymmetry_init_count _ _ _ _ _ _ _ H) as [n [E [N C]]].
    exists n. repeat split; try assumption. lia.
  - intros mesh_slice translation nb name next H.
    apply TranslationalSymmetry_init_raises. intros n E. left. now apply H.
  - intros mesh_slice point nb name next H.
    apply AxialSymmetry_init_raises. intros n E. left. now apply H.
  - intros profile z_range point nphi name next H. now apply from_profile_fails.
Qed.

(** C6, as amended.  Each constructor fails with an AssertionError when a
    geometric precondition fails: ReflectionSymmetry for a plane whose normal
    has a non-zero z component, TranslationalSymmetry for a translation
    whose z component is not zero or a number of repetitions below 1,
    AxialSymmetry for a number of repetitions below 1, and [from_profile] for
    a profile whose array is not two-dimensional with three columns. *)
Theorem constructors_assert_preconditions :
  (forall half plane name next nz,
     nth_error (normal plane) 2 = Some nz -> ~ (nz == 0)%Q ->
     ReflectionSymmetry_init format_name half plane name next = Raise AssertionError)
  /\ (forall mesh_slice translation nb name next tz,
      nth_error translation 2 = Some tz -> ~ (tz == 0)%Q ->
      TranslationalSymmetry_init format_name mesh_slice translation nb name next
        = Raise AssertionError)
  /\ (forall mesh_slice translation n name next,
      n < 1 ->
      TranslationalSymmetry_init format_name mesh_slice translation (Int n) name next
        = Raise AssertionError)
  /\ (forall mesh_slice point n name next,
      n < 1 ->
      AxialSymmetry_init format_name mesh_slice point (Int n) name next
        = Raise AssertionError)
  /\ (forall profile z_range point nphi name next,
      List.length (shape (profile_array_of profile z_range)) <> 2%nat
      \/ (exists d1, nth_error (shape (profile_array_of profile z_range)) 1 = Some d1
                     /\ d1 <> 3%nat) ->
      AxialSymmetry_from_profile format_name profile z_range point nphi name next
        = Raise AssertionError).
Proof.
  repeat split.
  - intros half plane name next nz T Z0.
    apply (ReflectionSymmetry_init_raises half plane name next nz T).
    destruct (Qeq_bool nz 0) eqn:E; [ | reflexivity ].
    apply Qeq_bool_iff in E. contradiction.
  - intros mesh_slice translation nb name next tz T Z0.
    apply TranslationalSymmetry_init_raises. intros n _. right; right. exists tz.
    split; [ exact T | ].
    destruct (Qeq_bool tz 0) eqn:E; [ | reflexivity ].
    apply Qeq_bool_iff in E. contradiction.
  - intros mesh_slice translation n name next N.
    apply TranslationalSymmetry_init_raises. intros m [= <-]. now left.
  - intros mesh_slice point n name next N.
    apply AxialSymmetry_init_raises. intros m [= <-]. now left.
  - intros profile z_range point nphi name next H. now apply from_profile_asserts.
Qed.

(** *** Further properties of the constructors *)

(** On a vertical plane the constructor of ReflectionSymmetry returns a new
    object of plane [plane] with exactly the two sub-meshes [half], the very
    object it received and not a copy, and a copy of [half] mirrored once
    across the plane and named after it; a name that is given is the name of
    the mesh. *)
Theorem reflection_symmetry_halves (half : mesh) (plane : Plane) (name : option string)
    (next : nat) (nz : Q) :
  nth_error (normal plane) 2 = Some nz -> (nz == 0)%Q ->
  exists nm,
    ReflectionSymmetry_init format_name half plane name next
    = Return (Collection next nm (ReflectionSymmetry plane)
                [half;
                 set_name ("mirror_of_" ++ name_of half)%string
                   (apply (mirror plane) (fst (copy_from half (S next))))],
              snd (copy_from half (S next)))
    /\ (forall n, name = Some n -> nm = n).
Proof.
  intros T Z0. apply Qeq_bool_iff in Z0.
  unfold ReflectionSymmetry_init, bind, fresh, assert, ret, z_of, lift, getitem, copy.
  rewrite T, Z0. destruct (copy_from half (S next)) as [c k].
  destruct name as [nm | ]; cbn [default_name set_name fst snd]; eexists;
    (split; [ reflexivity | ]); [ now intros n [= ->] | discriminate ].
Qed.


Lemma TranslationalSymmetry_init_inv mesh_slice translation nb name next self next' :
  TranslationalSymmetry_init format_name mesh_slice translation nb name next
    = Return (self, next') ->
  exists n id nm copies,
    nb = Int n /\ 1 <= n
    /\ self = Collection id nm (TranslationalSymmetry translation) (mesh_slice :: copies)
    /\ List.length copies = Z.to_nat n.
Proof.
  intros E.
  destruct nb as [n | q];
    [ | rewrite TranslationalSymmetry_init_raises in E; [ discriminate | discriminate ] ].
  exists n.
  destruct (Z_lt_le_dec n 1) as [N | N];
    [ rewrite TranslationalSymmetry_init_raises in E; [ discriminate | ];
      intros m [= <-]; now left | ].
  destruct (Nat.eq_dec (List.length translation) 3) as [P | P];
    [ | rewrite TranslationalSymmetry_init_raises in E; [ discriminate | ];
        intros m [= <-]; right; now left ].
  destruct (nth_error translation 2) as [tz | ] eqn:T;
    [ | apply nth_error_None in T; lia ].
  destruct (Qeq_bool tz 0) eqn:Z0;
    [ | rewrite TranslationalSymmetry_init_raises in E; [ discriminate | ];
        intros m [= <-]; right; right; now exists tz ].
  destruct (TranslationalSymmetry_init_returns mesh_slice translation n name next tz
              N P T Z0) as [id [nm [copies [k [R [L _]]]]]].
  rewrite R in E. injection E as <- _. exists id, nm, copies. auto.
Qed.

Lemma for_each_pure (A B : Type) (body : A -> alloc B) (f : A -> B) (l : list A) (k : nat) :
  (forall x, In x l -> body x k = Return (f x, k)) ->
  for_each l body k = Return (map f l, k).
Proof.
  induction l as [ | x r IH]; intros H; [ reflexivity | ].
  cbn [for_each map]. unfold bind at 1. rewrite (H x (or_introl eq_refl)).
  unfold bind at 1. rewrite IH by (intros y Hy; apply H; now right). reflexivity.
Qed.

Lemma all_against_first_pure (test : mesh -> mesh -> outcome bool) (b : mesh -> bool)
    (first : mesh) (rest : list mesh) (k : nat) :
  (forall m, In m rest -> test first m = Return (b m)) ->
  all_against_first test (first :: rest) k = Return (forallb b rest, k).
Proof.
  intros H. unfold all_against_first. cbn [tl]. unfold bind at 1.
  rewrite (for_each_pure _ _ _ b rest k).
  - unfold ret. f_equal. f_equal. induction rest as [ | m r IH]; [ reflexivity | ].
    cbn [map forallb]. rewrite IH; [ reflexivity | ].
    intros x Hx. apply H. now right.
  - intros m Hm. unfold bind, lift. cbn [getitem nth_error]. now rewrite (H m Hm).
Qed.

Lemma forallb_false_In (A : Type) (b : A -> bool) (l : list A) (x : A) :
  In x l -> b x = false -> forallb b l = false.
Proof.
  intros I E. destruct (forallb b l) eqn:F; [ | reflexivity ].
  rewrite forallb_forall in F. rewrite (F x I) in E. discriminate.
Qed.

(** [join] fails on each of its assertions, and on nothing to join: an
    argument that is not a TranslationalSymmetry, a translation that is not
    close to the translation of the first argument, and a number of
    sub-meshes that is not the one of the first argument raise an
    AssertionError; without any argument, reading the first one raises an
    IndexError. *)
Theorem join_refuses (next : nat) :
  TranslationalSymmetry_join format_name [] next = Raise IndexError
  /\ (forall meshes m,
      In m meshes -> isinstance_TranslationalSymmetry m = false ->
      TranslationalSymmetry_join format_name meshes next = Raise AssertionError)
  /\ (forall id0 name0 t0 subs0 rest id name t subs,
      forallb isinstance_TranslationalSymmetry rest = true ->
      In (Collection id name (TranslationalSymmetry t) subs) rest ->
      allclose t0 t = false ->
      TranslationalSymmetry_join format_name
        (Collection id0 name0 (TranslationalSymmetry t0) subs0 :: rest) next
      = Raise AssertionError)
  /\ (forall id0 name0 t0 subs0 rest m,
      forallb isinstance_TranslationalSymmetry rest = true ->
      In m rest -> nb_submeshes m <> List.length subs0 ->
      TranslationalSymmetry_join format_name
        (Collection id0 name0 (TranslationalSymmetry t0) subs0 :: rest) next
      = Raise AssertionError).
Proof.
  split; [ reflexivity | ]. split; [ | split ].
  - intros meshes m I E. unfold TranslationalSymmetry_join.
    unfold bind at 1. unfold assert at 1.
    now rewrite (forallb_false_In _ _ _ _ I E).
  - intros id0 name0 t0 subs0 rest id name t subs F I C.
    set (first := Collection id0 name0 (TranslationalSymmetry t0) subs0).
    unfold TranslationalSymmetry_join.
    unfold bind at 1. unfold assert at 1. cbn [forallb]. rewrite F.
    cbn [first isinstance_TranslationalSymmetry andb ret]. fold first.
    unfold bind at 1.
    rewrite (all_against_first_pure _
               (fun m => match translation_of m with Return t' => allclose t0 t' | _ => false end)).
    + unfold bind at 1. unfold assert at 1.
      rewrite (forallb_false_In _ _ _ _ I); [ reflexivity | exact C ].
    + intros m Hm. cbn [first translation_of obind].
      rewrite forallb_forall in F. specialize (F m Hm).
      destruct m as [ | ? ? [ | | t' | ] ?]; try discriminate. reflexivity.
  - intros id0 name0 t0 subs0 rest m F I C.
    set (first := Collection id0 name0 (TranslationalSymmetry t0) subs0).
    unfold TranslationalSymmetry_join.
    unfold bind at 1. unfold assert at 1. cbn [forallb]. rewrite F.
    cbn [first isinstance_TranslationalSymmetry andb ret]. fold first.
    unfold bind at 1.
    rewrite (all_against_first_pure _
               (fun m => match translation_of m with Return t' => allclose t0 t' | _ => false end)).
    + unfold bind at 1. unfold assert at 1.
      match goal with
      | |- context [if ?c then ret tt else _] => destruct c; [ | reflexivity ]
      end.
      cbn [ret].
      unfold bind at 1.
      rewrite (all_against_first_pure _
                 (fun m => Nat.eqb (List.length subs0) (List.length (submeshes m)))).
      * unfold bind at 1. unfold assert at 1.
        rewrite (forallb_false_In _ _ _ _ I); [ reflexivity | ].
        apply Nat.eqb_neq. intros E. apply C. unfold nb_submeshes. now rewrite E.
      * intros x Hx. reflexivity.
    + intros x Hx. cbn [first translation_of obind].
      rewrite forallb_forall in F. specialize (F x Hx).
      destruct x as [ | ? ? [ | | t' | ] ?]; try discriminate. reflexivity.
Qed.

(** Whenever [join] returns, it returns a TranslationalSymmetry with the
    translation of its first argument and one sub-mesh more than its first
    argument has, and all its arguments are TranslationalSymmetry objects. *)
Theorem join_returns (meshes : list mesh) (next : nat) (self : mesh) (next' : nat) :
  TranslationalSymmetry_join format_name meshes next = Return (self, next') ->
  exists first,
    nth_error meshes 0 = Some first
    /\ forallb isinstance_TranslationalSymmetry meshes = true
    /\ isinstance_TranslationalSymmetry self = true
    /\ translation_of self = translation_of first
    /\ nb_submeshes self = (nb_submeshes first + 1)%nat.
Proof.
  unfold TranslationalSymmetry_join. intros E.
  apply bind_Return in E. destruct E as [u [k1 [A E]]].
  assert (F : forallb isinstance_TranslationalSymmetry meshes = true).
  { unfold assert in A. destruct (forallb _ meshes); [ reflexivity | discriminate ]. }
  apply bind_Return in E. destruct E as [close [k2 [_ E]]].
  apply bind_Return in E. destruct E as [u3 [k3 [_ E]]].
  apply bind_Return in E. destruct E as [same [k4 [_ E]]].
  apply bind_Return in E. destruct E as [u5 [k5 [_ E]]].
  apply bind_Return in E. destruct E as [others [k6 [_ E]]].
  apply bind_Return in E. destruct E as [first [k7 [G E]]].
  apply lift_Return in G. unfold getitem in G.
  destruct (nth_error meshes 0) as [m | ] eqn:M; [ | discriminate ].
  injection G as ->.
  apply bind_Return in E. destruct E as [s0 [k8 [_ E]]].
  apply bind_Return in E. destruct E as [start [k9 [_ E]]].
  apply bind_Return in E. destruct E as [mesh_slice [k10 [_ E]]].
  apply bind_Return in E. destruct E as [first0 [k11 [G0 E]]].
  apply lift_Return in G0. unfold getitem in G0. rewrite M in G0. injection G0 as <-.
  apply bind_Return in E. destruct E as [t [k12 [Tr E]]].
  apply lift_Return in Tr.
  apply bind_Return in E. destruct E as [first1 [k13 [G E]]].
  apply lift_Return in G. unfold getitem in G. rewrite M in G. injection G as <-.
  apply TranslationalSymmetry_init_inv in E.
  destruct E as [n [id [nm [copies [[= <-] [_ [-> L]]]]]]].
  exists first. split; [ reflexivity | ]. split; [ exact F | ].
  split; [ reflexivity | ]. split; [ now rewrite Tr | ].
  unfold nb_submeshes at 1. cbn [submeshes List.length]. rewrite L, Nat2Z.id.
  unfold nb_submeshes. lia.
Qed.

Lemma from_profile_unfold (profile : profile_arg) (z_range point : list Q) (nphi : number)
    (name : option string) (next n : nat) :
  let name' := match name with None => "axisymmetric_mesh"%string | Some s => s end in
  let profile_array := profile_array_of profile z_range in
  shape profile_array = [n; 3%nat] ->
  AxialSymmetry_from_profile format_name profile z_range point nphi name next =
  match slice_angle nphi with
  | Return angle =>
      AxialSymmetry_init format_name (revolution_slice profile_array n name' angle (S next))
        point (sub1 nphi) (Some name') (S (S next))
  | Raise e => Raise e
  end.
Proof.
  intros name' profile_array Sh.
  unfold AxialSymmetry_from_profile. fold profile_array. fold name'.
  unfold bind at 1. unfold assert at 1. rewrite Sh. cbn [List.length Nat.eqb ret].
  unfold bind at 1. unfold lift at 1. cbn [getitem nth_error].
  unfold bind at 1. unfold assert at 1. cbn [Nat.eqb ret].
  unfold bind at 1. unfold lift at 1. cbn [getitem nth_error].
  unfold bind at 1. unfold lift at 1.
  destruct (slice_angle nphi) as [angle | e]; [ | reflexivity ].
  unfold bind at 1. unfold fresh at 1.
  unfold bind at 1. unfold fresh at 1.
  reflexivity.
Qed.

(** On a profile of three columns, [from_profile] divides by nphi before it
    calls the constructor: nphi = 0 raises a ZeroDivisionError, and every
    other nphi that is not an integer at least 2 raises the AssertionError
    of the constructor. *)
Theorem from_profile_small_nphi (profile : profile_arg) (z_range point : list Q)
    (name : option string) (next n : nat) :
  shape (profile_array_of profile z_range) = [n; 3%nat] ->
  AxialSymmetry_from_profile format_name profile z_range point (Int 0) name next
    = Raise ZeroDivisionError
  /\ (forall q, (q == 0)%Q ->
      AxialSymmetry_from_profile format_name profile z_range point (Float q) name next
        = Raise ZeroDivisionError)
  /\ (forall z, z < 2 -> z <> 0 ->
      AxialSymmetry_from_profile format_name profile z_range point (Int z) name next
        = Raise AssertionError)
  /\ (forall q, ~ (q == 0)%Q ->
      AxialSymmetry_from_profile format_name profile z_range point (Float q) name next
        = Raise AssertionError).
Proof.
  intros Sh. repeat split.
  - now rewrite (from_profile_unfold _ _ _ _ _ _ _ Sh).
  - intros q Z0. rewrite (from_profile_unfold _ _ _ _ _ _ _ Sh). cbn [slice_angle].
    apply Qeq_bool_iff in Z0. now rewrite Z0.
  - intros z L Z0. rewrite (from_profile_unfold _ _ _ _ _ _ _ Sh). cbn [slice_angle].
    apply Z.eqb_neq in Z0. rewrite Z0. apply AxialSymmetry_init_raises.
    intros m [= <-]. left. lia.
  - intros q Z0. rewrite (from_profile_unfold _ _ _ _ _ _ _ Sh). cbn [slice_angle].
    destruct (Qeq_bool q 0) eqn:E; [ apply Qeq_bool_iff in E; contradiction | ].
    apply AxialSymmetry_init_raises. discriminate.
Qed.


(** A profile given as a function always has an array of three columns:
    for nphi >= 2 and a point of three coordinates, [from_profile] returns a
    mesh of nphi sub-meshes whatever the function and [z_range], whose
    profile holds the points [f(z), 0, z] in the order of [z_range]. *)
Theorem from_profile_of_function (f : Q -> Q) (z_range point : list Q) (nphi : Z)
    (name : option string) (next : nat) :
  2 <= nphi -> List.length point = 3%nat ->
  shape (profile_array_of (function f) z_range) = [List.length z_range; 3%nat]
  /\ data (profile_array_of (function f) z_range)
     = flat_map (fun z => [f z; 0%Q; z]) z_range
  /\ exists self next',
      AxialSymmetry_from_profile format_name (function f) z_range point (Int nphi) name next
        = Return (self, next')
      /\ nb_submeshes self = Z.to_nat nphi.
Proof.
  intros N P. split; [ reflexivity | ]. split; [ reflexivity | ].
  rewrite (from_profile_unfold (function f) z_range point (Int nphi) name next
             (List.length z_range) eq_refl).
  cbn [slice_angle sub1].
  replace (nphi =? 0) with false by (symmetry; apply Z.eqb_neq; lia).
  match goal with
  | |- context [AxialSymmetry_init _ ?b _ _ ?nm ?k] =>
      destruct (AxialSymmetry_init_returns b point (nphi - 1) nm k)
        as [id [nm' [copies [next' [R [L _]]]]]]; [ lia | exact P | ]
  end.
  eexists. exists next'. split; [ exact R | ].
  unfold nb_submeshes. cbn [submeshes List.length]. lia.
Qed.

End ConstructorProperties.

(** ** The constructors and the assembly together *)

Section MeshInduction.

Variable P : mesh -> Prop.
Hypothesis on_Mesh : forall i n g, P (Mesh i n g).
Hypothesis on_Collection : forall i n k l, Forall P l -> P (Collection i n k l).

Fixpoint mesh_induction (m : mesh) : P m :=
  match m with
  | Mesh i n g => on_Mesh i n g
  | Collection i n k l =>
      on_Collection i n k l
        ((fix all (l : list mesh) : Forall P l :=
            match l with
            | [] => Forall_nil P
            | s :: r => Forall_cons s (mesh_induction s) (all r)
            end) l)
  end.

End MeshInduction.

Lemma forallb_map_ext (A : Type) (b : A -> bool) (f : A -> A) (l : list A) :
  Forall (fun x => b (f x) = b x) l -> forallb b (map f l) = forallb b l.
Proof.
  induction 1 as [ | x r E _ IH]; [ reflexivity | ]. cbn [map forallb]. now rewrite E, IH.
Qed.

Lemma complete_set_name (n : string) (m : mesh) : complete (set_name n m) = complete m.
Proof.
  destruct m; reflexivity.
Qed.

Lemma complete_apply (t : transform) (m : mesh) : complete (apply t m) = complete m.
Proof.
  induction m as [i n g | i n k l IH] using mesh_induction; [ reflexivity | ].
  cbn [apply complete]. rewrite length_map. f_equal. now apply forallb_map_ext.
Qed.

Lemma complete_copy (m : mesh) : forall k, complete (fst (copy_from m k)) = complete m.
Proof.
  induction m as [i n g | i n c l IH] using mesh_induction; intros k; [ reflexivity | ].
  cbn [copy_from].
  match goal with
  | |- context [(fix copy_all (l : list mesh) (next : nat) {struct l} := _) l (S k)] =>
      set (copy_all := fix copy_all (l : list mesh) (next : nat) {struct l}
                         : list mesh * nat :=
             match l with
             | [] => ([], next)
             | s :: r =>
                 let (s', next1) := copy_from s next in
                 let (r', next2) := copy_all r next1 in
                 (s' :: r', next2)
             end)
  end.
  assert (A : forall j, forallb complete (fst (copy_all l j)) = forallb complete l
                        /\ List.length (fst (copy_all l j)) = List.length l).
  { induction IH as [ | s r E _ IHr]; intros j; [ now split | ].
    cbn [copy_all]. specialize (E j). destruct (copy_from s j) as [s' j1].
    destruct (IHr j1) as [F L]. destruct (copy_all r j1) as [r' j2].
    cbn [fst forallb List.length] in *. now rewrite E, F, L. }
  destruct (A (S k)) as [F L]. destruct (copy_all l (S k)) as [l' k'].
  cbn [fst complete] in *. now rewrite F, L.
Qed.

Section SelfInteraction.

Variable format_name : mesh -> string -> string.
Variables Solver Args Coefficients : Type.
Variable Plane_eq : Plane -> Plane -> bool.
Variable build_matrices : Solver -> mesh -> mesh -> Args -> Coefficients * Coefficients.

Lemma copies_complete (mesh_slice : mesh) (copies : list mesh) (n : nat)
    (made : nat -> mesh -> mesh) :
  complete mesh_slice = true ->
  (forall i c, complete (made i c) = complete c) ->
  List.length copies = n ->
  (forall i, (1 <= i <= n)%nat ->
     exists k, nth_error (mesh_slice :: copies) i
               = Some (made i (fst (copy_from mesh_slice k)))) ->
  forallb complete (mesh_slice :: copies) = true.
Proof.
  intros C M L H. cbn [forallb]. rewrite C. cbn [andb].
  apply forallb_forall. intros s I.
  apply In_nth_error in I. destruct I as [i E].
  assert (Hi : (i < List.length copies)%nat) by (apply nth_error_Some; congruence).
  destruct (H (S i)) as [k Ek]; [ lia | ].
  cbn [nth_error] in Ek. rewrite E in Ek. injection Ek as ->.
  now rewrite M, complete_copy.
Qed.

Lemma constructed_complete :
  (forall half plane name next self next',
     complete half = true ->
     ReflectionSymmetry_init format_name half plane name next = Return (self, next') ->
     complete self = true)
  /\ (forall mesh_slice translation nb name next self next',
      complete mesh_slice = true ->
      TranslationalSymmetry_init format_name mesh_slice translation nb name next
        = Return (self, next') ->
      complete self = true)
  /\ (forall mesh_slice point nb name next self next',
      complete mesh_slice = true ->
      AxialSymmetry_init format_name mesh_slice point nb name next = Return (self, next') ->
      complete self = true).
Proof.
  split; [ | split ].
  - intros half plane name next self next' C E.
    destruct (nth_error (normal plane) 2) as [nz | ] eqn:T;
      [ | rewrite (ReflectionSymmetry_init_no_normal format_name half plane name next T) in E;
          discriminate ].
    destruct (Qeq_bool nz 0) eqn:Z0;
      [ | rewrite (ReflectionSymmetry_init_raises format_name half plane name next nz T Z0)
            in E; discriminate ].
    destruct (ReflectionSymmetry_init_returns format_name half plane name next nz T Z0)
      as [nm R].
    rewrite R in E. injection E as <- _.
    cbn [complete List.length forallb Nat.leb andb].
    now rewrite C, complete_set_name, complete_apply, complete_copy, C.
  - intros mesh_slice translation nb name next self next' C E.
    destruct nb as [n | q];
      [ | rewrite TranslationalSymmetry_init_raises in E; [ discriminate | discriminate ] ].
    destruct (Z_lt_le_dec n 1) as [N | N];
      [ rewrite TranslationalSymmetry_init_raises in E; [ discriminate | ];
        intros m [= <-]; now left | ].
    destruct (Nat.eq_dec (List.length translation) 3) as [P | P];
      [ | rewrite TranslationalSymmetry_init_raises in E; [ discriminate | ];
          intros m [= <-]; right; now left ].
    destruct (nth_error translation 2) as [tz | ] eqn:T;
      [ | apply nth_error_None in T; lia ].
    destruct (Qeq_bool tz 0) eqn:Z0;
      [ | rewrite TranslationalSymmetry_init_raises in E; [ discriminate | ];
          intros m [= <-]; right; right; now exists tz ].
    destruct (TranslationalSymmetry_init_returns format_name mesh_slice translation
                n name next tz N P T Z0) as [id [nm [copies [k [R [L H]]]]]].
    rewrite R in E. injection E as <- _.
    cbn [complete]. apply andb_true_intro. split.
    + apply Nat.leb_le. cbn [List.length]. lia.
    + apply (copies_complete mesh_slice copies (Z.to_nat n)
               (translated_copy mesh_slice translation) C); try assumption.
      intros i c. unfold translated_copy.
      now rewrite complete_apply, complete_set_name.
  - intros mesh_slice point nb name next self next' C E.
    destruct nb as [n | q];
      [ | rewrite AxialSymmetry_init_raises in E; [ discriminate | discriminate ] ].
    destruct (Z_lt_le_dec n 1) as [N | N];
      [ rewrite AxialSymmetry_init_raises in E; [ discriminate | ];
        intros m [= <-]; now left | ].
    destruct (Nat.eq_dec (List.length point) 3) as [P | P];
      [ | rewrite AxialSymmetry_init_raises in E; [ discriminate | ];
          intros m [= <-]; now right ].
    destruct (AxialSymmetry_init_returns format_name mesh_slice point n name next N P)
      as [id [nm [copies [k [R [L H]]]]]].
    rewrite R in E. injection E as <- _.
    cbn [complete]. apply andb_true_intro. split.
    + apply Nat.leb_le. cbn [List.length]. lia.
    + apply (copies_complete mesh_slice copies (Z.to_nat n)
               (rotated_copy mesh_slice point n) C); try assumption.
      intros i c. unfold rotated_copy.
      now rewrite !complete_apply, complete_set_name.
Qed.

(** A mesh that a constructor makes from a complete mesh is complete: its
    sub-meshes are the slice and copies of the slice, at least two of
    them. *)
Theorem constructors_make_complete_meshes :
  (forall half plane name next self next',
     complete half = true ->
     ReflectionSymmetry_init format_name half plane name next = Return (self, next') ->
     complete self = true)
  /\ (forall mesh_slice translation nb name next self next',
      complete mesh_slice = true ->
      TranslationalSymmetry_init format_name mesh_slice translation nb name next
        = Return (self, next') ->
      complete self = true)
  /\ (forall mesh_slice point nb name next self next',
      complete mesh_slice = true ->
      AxialSymmetry_init format_name mesh_slice point nb name next = Return (self, next') ->
      complete self = true).
Proof.
  exact constructed_complete.
Qed.

Local Abbreviation assembled := (build_matrices_with_symmetries Plane_eq build_matrices).

Lemma gather_complete solver args (mesh1 : mesh) (l : list mesh) :
  complete mesh1 = true -> forallb complete l = true ->
  exists rs,
    traverse (fun s => assembled solver (hd mesh1 (submeshes mesh1)) s args) l = Return rs
    /\ List.length rs = List.length l.
Proof.
  intros C1 F.
  destruct (traverse_Return _ _
              (fun s => assembled solver (hd mesh1 (submeshes mesh1)) s args)
              (fun _ _ => True) l) as [rs [E Q]].
  - apply Forall_forall. intros s I. rewrite forallb_forall in F.
    destruct (function_complete Solver Args Coefficients Plane_eq build_matrices solver args
                _ (hd mesh1 (submeshes mesh1)) s (le_n _)) as [r R].
    + now apply complete_first.
    + now apply F.
    + exists r. now split.
  - exists rs. split; [ exact E | ]. eapply Forall2_length'. eassumption.
Qed.

Lemma forallb_firstn (A : Type) (b : A -> bool) (n : nat) (l : list A) :
  forallb b l = true -> forallb b (firstn n l) = true.
Proof.
  intros F. apply forallb_forall. intros x I. rewrite forallb_forall in F.
  apply F. now apply firstn_incl in I.
Qed.

Lemma complete_submeshes (m : mesh) : complete m = true -> forallb complete (submeshes m) = true.
Proof.
  intros C. apply forallb_forall. intros s I. now apply (complete_submesh m).
Qed.


(** An AxialSymmetry made by the constructor from a complete slice, assembled
    against itself, takes the rotation branch and returns two block
    circulant matrices of size nb_repetitions + 1 that hold
    (nb_repetitions + 1) / 2 + 1 blocks each. *)
Theorem axial_symmetry_on_itself solver args (mesh_slice : mesh) (point : list Q)
    (nb : number) (name : option string) (next : nat) (self : mesh) (next' : nat) :
  complete mesh_slice = true ->
  AxialSymmetry_init format_name mesh_slice point nb name next = Return (self, next') ->
  dispatch Plane_eq self self = rotation_symmetry
  /\ exists n S_blocks V_blocks,
      nb = Int n
      /\ assembled solver self self args
         = Return (BlockCirculantMatrix S_blocks (Z.to_nat n + 1),
                   BlockCirculantMatrix V_blocks (Z.to_nat n + 1))
      /\ List.length S_blocks = ((Z.to_nat n + 1) / 2 + 1)%nat
      /\ List.length V_blocks = ((Z.to_nat n + 1) / 2 + 1)%nat.
Proof.
  intros C E.
  pose proof (proj2 (proj2 constructed_complete) _ _ _ _ _ _ _ C E) as CS.
  destruct (AxialSymmetry_init_count format_name _ _ _ _ _ _ _ E) as [n [-> [N Cnt]]].
  destruct (AxialSymmetry_init_returns format_name mesh_slice point n name next N)
    as [id [nm [copies [k [R [L _]]]]]].
  { destruct (Nat.eq_dec (List.length point) 3) as [P | P]; [ exact P | ].
    rewrite AxialSymmetry_init_raises in E; [ discriminate | ].
    intros m [= <-]. now right. }
  rewrite R in E. injection E as <- _.
  set (self := Collection id nm (AxialSymmetry point) (mesh_slice :: copies)) in *.
  assert (D : dispatch Plane_eq self self = rotation_symmetry).
  { unfold dispatch, self. cbn [mirror_test translation_test rotation_test].
    unfold is_. now rewrite Nat.eqb_refl. }
  split; [ exact D | ].
  pose proof (function_branches Solver Args Coefficients Plane_eq build_matrices solver args
                self self) as F.
  cbv zeta in F. rewrite D in F.
  assert (Ne : submeshes self <> []) by discriminate.
  specialize (F Ne).
  destruct (gather_complete solver args self
              (firstn (nb_submeshes self / 2 + 1) (submeshes self)) CS
              (forallb_firstn _ _ _ _ (complete_submeshes _ CS))) as [rs [T Len]].
  rewrite T in F. cbn [obind] in F. rewrite Cnt in F.
  exists n, (map fst rs), (map snd rs). split; [ reflexivity | ]. split; [ exact F | ].
  rewrite !length_map, Len, length_firstn. fold (nb_submeshes self). rewrite Cnt.
  assert ((Z.to_nat n + 1) / 2 < Z.to_nat n + 1)%nat by (apply Nat.div_lt; lia). lia.
Qed.

(** A ReflectionSymmetry made by the constructor from a complete half,
    assembled against itself, takes the mirror branch when its plane equals
    itself, and returns two block Toeplitz matrices of two blocks each;
    when the comparison of the plane with itself fails, [build_matrices] is
    called on the whole mesh. *)
Theorem reflection_symmetry_on_itself solver args (half : mesh) (plane : Plane)
    (name : option string) (next : nat) (self : mesh) (next' : nat) :
  complete half = true ->
  ReflectionSymmetry_init format_name half plane name next = Return (self, next') ->
  (Plane_eq plane plane = true ->
   dispatch Plane_eq self self = mirror_symmetry
   /\ exists S_a S_b V_a V_b,
       assembled solver self self args
       = Return (BlockToeplitzMatrix [S_a; S_b], BlockToeplitzMatrix [V_a; V_b]))
  /\ (Plane_eq plane plane = false ->
      assembled solver self self args
      = Return (evaluated (build_matrices solver self self args))).
Proof.
  intros C E.
  pose proof (proj1 constructed_complete _ _ _ _ _ _ C E) as CS.
  destruct (nth_error (normal plane) 2) as [nz | ] eqn:T;
    [ | rewrite (ReflectionSymmetry_init_no_normal format_name half plane name next T) in E;
        discriminate ].
  destruct (Qeq_bool nz 0) eqn:Z0;
    [ | rewrite (ReflectionSymmetry_init_raises format_name half plane name next nz T Z0)
          in E; discriminate ].
  destruct (ReflectionSymmetry_init_returns format_name half plane name next nz T Z0)
    as [nm R].
  rewrite R in E. injection E as <- _.
  match type of CS with complete ?m = true => set (self := m) in * end.
  pose proof (function_branches Solver Args Coefficients Plane_eq build_matrices solver args
                self self) as F.
  cbv zeta in F. split.
  - intros P.
    assert (D : dispatch Plane_eq self self = mirror_symmetry).
    { unfold dispatch, self. cbn [mirror_test]. now rewrite P. }
    split; [ exact D | ]. rewrite D in F.
    assert (Ne : submeshes self <> []) by discriminate.
    assert (N2 : (2 <= nb_submeshes self)%nat) by (cbn; lia).
    specialize (F Ne N2).
    destruct (gather_complete solver args self (firstn 2 (submeshes self)) CS
                (forallb_firstn _ _ _ _ (complete_submeshes _ CS))) as [rs [Tr Len]].
    rewrite Tr in F. cbn [obind] in F. cbn in Len.
    destruct rs as [ | [S_a V_a] [ | [S_b V_b] [ | ? ?]]]; try discriminate.
    exists S_a, S_b, V_a, V_b. exact F.
  - intros P.
    assert (D : dispatch Plane_eq self self = evaluation).
    { unfold dispatch, self. cbn [mirror_test translation_test rotation_test].
      now rewrite P. }
    now rewrite D in F.
Qed.

End SelfInteraction.

(** ** Sample bodies *)

Local Open Scope string_scope.

(** A triangle in the plane y = 1, as a mesh of one panel. *)
Definition hull : mesh :=
  Mesh 0 "hull"
    (from_arrays (array (mk_ndarray [3%nat; 3%nat] [0; 1; 0; 1; 1; 0; 0; 1; -1 # 1]%Q))
                 [[0; 1; 2; 0]%nat]).

Definition plain_name (self : mesh) (options : string) : string := options.

(** The vertical plane y = 0 and the horizontal plane z = 0. *)
Definition xOz_Plane : Plane := mk_Plane 100 [0; 1; 0]%Q 0%Q.
Definition xOy_Plane : Plane := mk_Plane 101 [0; 0; 1]%Q 0%Q.

(** Planes compared by their parameters. *)
Definition same_parameters (p q : Plane) : bool :=
  allclose (normal p) (normal q) && isclose (c p) (c q).

(** The mesh a constructor returns, when it returns one. *)
Definition created (x : alloc mesh) (next : nat) : mesh :=
  match x next with
  | Return (m, _) => m
  | Raise _ => hull
  end.

Definition mirrored_hull : mesh :=
  created (ReflectionSymmetry_init plain_name hull xOz_Plane None) 1.

Definition row_of_hulls : mesh :=
  created (TranslationalSymmetry_init plain_name hull [1; 0; 0]%Q (Int 2) None) 1.

Definition ring_of_hulls : mesh :=
  created (AxialSymmetry_init plain_name hull [0; 0; 0]%Q (Int 3) None) 1.

(** An evaluator that tells which two meshes it received, by their names. *)
Definition by_names (solver : unit) (mesh1 mesh2 : mesh) (args : unit)
    : (string * string) * (string * string) :=
  ((name_of mesh1, name_of mesh2), (name_of mesh2, name_of mesh1)).

(** A second ring, equal to [ring_of_hulls] but for the identities of its
    objects, and a row with another translation. *)
Definition other_ring_of_hulls : mesh :=
  created (AxialSymmetry_init plain_name hull [0; 0; 0]%Q (Int 3) None) 10.

Definition keel : mesh :=
  Mesh 20 "keel"
    (from_arrays (array (mk_ndarray [3%nat; 3%nat] [0; 0; 0; 1; 0; 0; 0; 0; -2 # 1]%Q))
                 [[0; 1; 2; 0]%nat]).

(** Two symmetries of one repetition each, of slices that are collections
    of one mesh. *)
Definition pair_of_hulls : mesh :=
  created (TranslationalSymmetry_init plain_name
             (Collection 5 "hulls" CollectionOfMeshes [hull]) [1; 0; 0]%Q (Int 1) None) 6.

Definition pair_of_keels : mesh :=
  created (TranslationalSymmetry_init plain_name
             (Collection 25 "keels" CollectionOfMeshes [keel]) [1; 0; 0]%Q (Int 1) None) 26.

(** *** A kernel of the distance between panels *)

Definition point : Type := list Q.

Fixpoint rows_of_three (entries : list Q) : list point :=
  match entries with
  | x :: y :: z :: rest => [x; y; z] :: rows_of_three rest
  | _ => []
  end.

Definition shift (vector : list Q) (p : point) : point :=
  map (fun '(x, d) => x + d)%Q (combine p vector).

Definition dot (u v : list Q) : Q :=
  fold_right Qplus 0%Q (map (fun '(x, y) => x * y)%Q (combine u v)).

(** The image of a point across the plane of equation [normal . x = c]. *)
Definition reflect (plane : Plane) (p : point) : point :=
  let k := (2 * (dot (normal plane) p - c plane) / dot (normal plane) (normal plane))%Q in
  map (fun '(x, n) => x - k * n)%Q (combine p (normal plane)).

Definition both {A : Type} (a b : option (list A)) : option (list A) :=
  match a, b with
  | Some x, Some y => Some (x ++ y)%list
  | _, _ => None
  end.

(** The points of a geometry made from arrays by translations and
    reflections, which keep rational coordinates.  The other primitives of
    the library are not interpreted: a geometry they made has no known
    points here. *)
Fixpoint points_of (g : geometry) : option (list point) :=
  match g with
  | from_arrays v _ => rows_of v
  | moved (translate vector) g' => option_map (map (shift vector)) (points_of g')
  | moved (mirror plane) g' => option_map (map (reflect plane)) (points_of g')
  | moved _ _ => None
  | added g1 g2 => both (points_of g1) (points_of g2)
  end
with rows_of (v : vertices) : option (list point) :=
  match v with
  | array a => Some (rows_of_three (data a))
  | concatenate a b => both (rows_of a) (rows_of b)
  | vertices_of g => points_of g
  end.

(** The panels of a geometry, each one the list of its corners. *)
Fixpoint corners (vertex : list point) (face : list nat) : option (list point) :=
  match face with
  | [] => Some []
  | i :: rest =>
      match nth_error vertex i, corners vertex rest with
      | Some p, Some ps => Some (p :: ps)
      | _, _ => None
      end
  end.

Fixpoint panels_of (g : geometry) : option (list (list point)) :=
  match g with
  | from_arrays v faces =>
      match rows_of v with
      | Some vertex =>
          fold_right (fun face ps =>
                        match corners vertex face, ps with
                        | Some cs, Some ps' => Some (cs :: ps')
                        | _, _ => None
                        end) (Some []) faces
      | None => None
      end
  | moved (translate vector) g' => option_map (map (map (shift vector))) (panels_of g')
  | moved (mirror plane) g' => option_map (map (map (reflect plane))) (panels_of g')
  | moved _ _ => None
  | added g1 g2 => both (panels_of g1) (panels_of g2)
  end.

(** The centre of a panel: the mean of its listed corners. *)
Definition centre (cs : list point) : point :=
  scale (1 / inject_Z (Z.of_nat (List.length cs)))%Q
        (fold_right shift [0; 0; 0]%Q cs).

(** The centres of the panels of a mesh; a collection has the panels of all
    its sub-meshes, in order. *)
Fixpoint centres (m : mesh) : option (list point) :=
  match m with
  | Mesh _ _ g => option_map (map centre) (panels_of g)
  | Collection _ _ _ l => fold_right (fun s cs => both (centres s) cs) (Some []) l
  end.

Definition squared_distance (p q : point) : Q :=
  fold_right Qplus 0%Q (map (fun '(x, y) => (x - y) * (x - y))%Q (combine p q)).

(** An evaluator whose coefficient of two panels is the square of the
    distance of their centres, as a fraction in lowest terms: it depends on
    the distance of the panels only, so that it is reciprocal and does not
    change when both meshes are moved together.  The two matrices are the
    same table, with one row per panel of [mesh1] and one column per panel of
    [mesh2]. *)
Definition by_distance (solver : unit) (mesh1 mesh2 : mesh) (args : unit)
    : option (list (list Q)) * option (list (list Q)) :=
  let K :=
    match centres mesh1, centres mesh2 with
    | Some ps, Some qs =>
        Some (map (fun p => map (fun q => Qred (squared_distance p q)) qs) ps)
    | _, _ => None
    end in
  (K, K).

(** Two unit squares side by side in the plane y = 1, as a mesh of two
    panels, its mirror image across y = 0 and a row of two of them. *)
Definition barge : mesh :=
  Mesh 30 "barge"
    (from_arrays
       (array (mk_ndarray [6%nat; 3%nat]
                 [0; 1; 0;  1; 1; 0;  2; 1; 0;
                  0; 1; -1 # 1;  1; 1; -1 # 1;  2; 1; -1 # 1]%Q))
       [[0; 1; 4; 3]; [1; 2; 5; 4]]%nat).

Definition mirrored_barge : mesh :=
  created (ReflectionSymmetry_init plain_name barge xOz_Plane None) 31.

Definition row_of_barges : mesh :=
  created (TranslationalSymmetry_init plain_name barge [2; 0; 0]%Q (Int 1) None) 31.

(** The closed square of side 1 at distance 1 of the axis, as a profile. *)
Definition square_profile : ndarray :=
  mk_ndarray [5%nat; 3%nat]
    [1; 0; 0;  2; 0; 0;  2; 0; -1 # 1;  1; 0; -1 # 1;  1; 0; 0]%Q.

(** ** The properties on the sample bodies *)

(** C1 fails on the code.  A row of two barges, made by the constructor of
    TranslationalSymmetry, is assembled against itself with an evaluator of
    the distance between panels.  The function evaluates the pairs
    (barge, barge) and (barge, repetition) only, so that the expansion of
    the matrix it returns holds the block of (barge, repetition) below the
    diagonal too, where the brute-force assembly holds the block of
    (repetition, barge), its transpose.  The mirror case, on the same barge
    and with the same evaluator, gives the blocks of the brute-force
    assembly. *)
Theorem expansion_is_not_brute_force :
  dispatch same_parameters row_of_barges row_of_barges = translational_symmetry
  /\ leaves row_of_barges = submeshes row_of_barges
  /\ (exists S_matrix V_matrix,
        build_matrices_with_symmetries same_parameters by_distance tt
          row_of_barges row_of_barges tt = Return (S_matrix, V_matrix)
        /\ blocks (expand S_matrix)
           = [[Some [[0; 1]; [1; 0]]; Some [[4; 9]; [1; 4]]];
              [Some [[4; 9]; [1; 4]]; Some [[0; 1]; [1; 0]]]]%Q
        /\ brute_force by_distance S_part tt tt row_of_barges row_of_barges
           = [[Some [[0; 1]; [1; 0]]; Some [[4; 9]; [1; 4]]];
              [Some [[4; 1]; [9; 4]]; Some [[0; 1]; [1; 0]]]]%Q
        /\ blocks (expand S_matrix)
           <> brute_force by_distance S_part tt tt row_of_barges row_of_barges
        /\ blocks (expand V_matrix)
           <> brute_force by_distance V_part tt tt row_of_barges row_of_barges)
  /\ dispatch same_parameters mirrored_barge mirrored_barge = mirror_symmetry
  /\ (exists S_matrix V_matrix,
        build_matrices_with_symmetries same_parameters by_distance tt
          mirrored_barge mirrored_barge tt = Return (S_matrix, V_matrix)
        /\ blocks (expand S_matrix)
           = brute_force by_distance S_part tt tt mirrored_barge mirrored_barge
        /\ blocks (expand V_matrix)
           = brute_force by_distance V_part tt tt mirrored_barge mirrored_barge).
Proof.
  split; [ reflexivity | ]. split; [ reflexivity | ]. split; [ | split ].
  - eexists. eexists. split; [ reflexivity | ]. split; [ reflexivity | ].
    split; [ reflexivity | ]. split; vm_compute; intros E; discriminate E.
  - reflexivity.
  - eexists. eexists. split; [ reflexivity | ]. split; reflexivity.
Qed.

Definition mirror_of_hull : mesh := nth 1 (submeshes mirrored_hull) hull.

(** A mirror-symmetric body against itself: two recursive calls, both on the
    half [hull] of the first mesh. *)
Lemma mirror_case_on_mirrored_hull :
  same_parameters xOz_Plane xOz_Plane = true
  /\ (forall answer : mesh -> mesh -> matrix (string * string) * matrix (string * string),
        calls (returning answer)
              (body same_parameters by_names tt mirrored_hull mirrored_hull tt)
        = [(hull, hull); (hull, mirror_of_hull)])
  /\ build_matrices_with_symmetries same_parameters by_names tt mirrored_hull mirrored_hull tt
     = Return (BlockToeplitzMatrix [Evaluated ("hull", "hull");
                                    Evaluated ("hull", "mirror_of_hull")],
               BlockToeplitzMatrix [Evaluated ("hull", "hull");
                                    Evaluated ("mirror_of_hull", "hull")]).
Proof.
  destruct (mirror_case unit unit (string * string) same_parameters by_names tt tt
              1 1 "hull" "hull" xOz_Plane xOz_Plane hull hull mirror_of_hull [] []
              eq_refl) as [C R].
  split; [ reflexivity | ]. split.
  - intros answer. exact (f_equal fst (C answer)).
  - exact R.
Defined.

(** A row of three hulls against itself: three recursive calls. *)
Lemma translation_case_on_row_of_hulls :
  allclose [1; 0; 0]%Q [1; 0; 0]%Q = true
  /\ (forall answer : mesh -> mesh -> matrix (string * string) * matrix (string * string),
        calls (returning answer)
              (body same_parameters by_names tt row_of_hulls row_of_hulls tt)
        = map (pair hull) (submeshes row_of_hulls))
  /\ build_matrices_with_symmetries same_parameters by_names tt row_of_hulls row_of_hulls tt
     = Return (BlockToeplitzMatrix [Evaluated ("hull", "hull");
                                    Evaluated ("hull", "repetition_1_of_hull");
                                    Evaluated ("hull", "repetition_2_of_hull")],
               BlockToeplitzMatrix [Evaluated ("hull", "hull");
                                    Evaluated ("repetition_1_of_hull", "hull");
                                    Evaluated ("repetition_2_of_hull", "hull")]).
Proof.
  destruct (translation_case unit unit (string * string) same_parameters by_names tt tt
              1 1 "hull" "hull" [1; 0; 0]%Q [1; 0; 0]%Q
              (submeshes row_of_hulls) (submeshes row_of_hulls) eq_refl eq_refl) as [C R].
  split; [ reflexivity | ]. split.
  - intros answer. exact (f_equal fst (proj1 (C answer))).
  - exact R.
Defined.

(** A ring of four hulls against itself: 4 / 2 + 1 = 3 recursive calls, and
    circulant matrices of size 4. *)
Lemma rotation_case_on_ring_of_hulls :
  (forall answer : mesh -> mesh -> matrix (string * string) * matrix (string * string),
     List.length (calls (returning answer)
                    (body same_parameters by_names tt ring_of_hulls ring_of_hulls tt))
     = 3%nat)
  /\ build_matrices_with_symmetries same_parameters by_names tt ring_of_hulls ring_of_hulls tt
     = Return (BlockCirculantMatrix [Evaluated ("hull", "hull");
                                     Evaluated ("hull", "rotation_1_of_hull");
                                     Evaluated ("hull", "rotation_2_of_hull")] 4,
               BlockCirculantMatrix [Evaluated ("hull", "hull");
                                     Evaluated ("rotation_1_of_hull", "hull");
                                     Evaluated ("rotation_2_of_hull", "hull")] 4)
  /\ dispatch same_parameters ring_of_hulls other_ring_of_hulls = evaluation.
Proof.
  destruct (rotation_case unit unit (string * string) same_parameters by_names tt tt
              ring_of_hulls ring_of_hulls) as [_ [_ H]].
  destruct H as [C R]; [ reflexivity | discriminate | apply Nat.leb_le; reflexivity | ].
  split; [ | split ].
  - intros answer. exact (proj2 (C answer)).
  - exact R.
  - reflexivity.
Defined.

(** Two rings that differ by the identities of their objects only: the
    evaluator is called on the two rings themselves. *)
Lemma fallback_on_two_rings :
  no_symmetry_match same_parameters ring_of_hulls other_ring_of_hulls
  /\ build_matrices_with_symmetries same_parameters by_names tt
       ring_of_hulls other_ring_of_hulls tt
     = Return (Evaluated ("hull", "hull"), Evaluated ("hull", "hull")).
Proof.
  assert (M : no_symmetry_match same_parameters ring_of_hulls other_ring_of_hulls).
  { apply (distinct_axial_objects same_parameters 1 "hull" [0; 0; 0]%Q
             (submeshes ring_of_hulls) 10 "hull" [0; 0; 0]%Q
             (submeshes other_ring_of_hulls)).
    discriminate. }
  split; [ exact M | ].
  exact (proj2 (proj2 (fallback unit unit (string * string) same_parameters by_names tt tt
                         ring_of_hulls other_ring_of_hulls M))).
Defined.

(** C6 fails as it is stated: the constructor of ReflectionSymmetry refuses
    a horizontal mirror plane with an AssertionError, and the module raises
    no other class of exception. *)
Lemma horizontal_mirror_plane_raises_AssertionError :
  ReflectionSymmetry_init plain_name hull xOy_Plane None 1%nat = Raise "AssertionError"
  /\ ReflectionSymmetry_init plain_name hull xOy_Plane None 1%nat
     <> Raise "InvalidSymmetryError".
Proof.
  split; [ reflexivity | discriminate ].
Qed.

(** The failures of C6 on the sample hull. *)
Lemma constructors_assert_preconditions_on_hull :
  ReflectionSymmetry_init plain_name hull xOy_Plane None 1%nat = Raise AssertionError
  /\ TranslationalSymmetry_init plain_name hull [1; 0; 1 # 2]%Q (Int 2) None 1%nat
     = Raise AssertionError
  /\ TranslationalSymmetry_init plain_name hull [1; 0; 0]%Q (Int 0) None 1%nat
     = Raise AssertionError
  /\ AxialSymmetry_init plain_name hull [0; 0; 0]%Q (Int 0) None 1%nat = Raise AssertionError
  /\ AxialSymmetry_from_profile plain_name (points (mk_ndarray [5%nat; 2%nat] []))
       [] [0; 0; 0]%Q (Int 4) None 1%nat = Raise AssertionError.
Proof.
  destruct (constructors_assert_preconditions plain_name) as [R [T [Tn [A P]]]].
  split; [ apply (R hull xOy_Plane None 1%nat 1%Q); [ reflexivity | discriminate ] | ].
  split; [ apply (T hull [1; 0; 1 # 2]%Q (Int 2) None 1%nat (1 # 2)%Q);
           [ reflexivity | discriminate ] | ].
  split; [ apply Tn; reflexivity | ].
  split; [ apply A; reflexivity | ].
  apply P. right. exists 2%nat. split; [ reflexivity | discriminate ].
Defined.

(** A ring of four hulls: the slice and its three rotated copies. *)
Lemma axial_symmetry_slices_of_ring_of_hulls :
  1 <= 3
  /\ List.length [0; 0; 0]%Q = 3%nat
  /\ exists self next',
       AxialSymmetry_init plain_name hull [0; 0; 0]%Q (Int 3) None 1%nat = Return (self, next')
       /\ nb_submeshes self = 4%nat
       /\ nth_error (submeshes self) 0 = Some hull.
Proof.
  split; [ discriminate | ]. split; [ reflexivity | ].
  destruct (axial_symmetry_slices plain_name hull [0; 0; 0]%Q 3 None 1%nat)
    as [self [next' [E [_ [N [F _]]]]]]; [ discriminate | reflexivity | ].
  exists self, next'. split; [ exact E | ]. split; [ exact N | exact F ].
Defined.

(** The square ring of the specification: with nphi = 4 it has exactly four
    sub-meshes, each a quarter of a turn (pi / 2) after its predecessor. *)
Lemma from_profile_revolution_of_square_ring :
  shape (profile_array_of (points square_profile) []) = [5%nat; 3%nat]
  /\ 2 <= 4
  /\ List.length [0; 0; 0]%Q = 3%nat
  /\ exists self next',
       AxialSymmetry_from_profile plain_name (points square_profile) [] [0; 0; 0]%Q
         (Int 4) None 1%nat = Return (self, next')
       /\ nb_submeshes self = 4%nat
       /\ (forall i, (inject_Z (2 * Z.of_nat (S i)) / inject_Z 4
                      - inject_Z (2 * Z.of_nat i) / inject_Z 4 == 1 # 2)%Q).
Proof.
  split; [ reflexivity | ]. split; [ discriminate | ]. split; [ reflexivity | ].
  destruct (from_profile_revolution plain_name (points square_profile) []
              [0; 0; 0]%Q 4 None 1%nat 5) as [_ [self [next' [E [_ [N [_ [_ [D _]]]]]]]]];
    [ reflexivity | discriminate | reflexivity | ].
  exists self, next'. split; [ exact E | ]. split; [ exact N | ].
  intros i. rewrite (D i). reflexivity.
Defined.

(** On the sample bodies, every constructor gives at least two sub-meshes,
    and [from_profile] fails for nphi = 1. *)
Lemma at_least_two_submeshes_on_samples :
  nb_submeshes mirrored_hull = 2%nat
  /\ (2 <= nb_submeshes row_of_hulls)%nat
  /\ (2 <= nb_submeshes ring_of_hulls)%nat
  /\ exists e,
       AxialSymmetry_from_profile plain_name (points square_profile) [] [0; 0; 0]%Q
         (Int 1) None 1%nat = Raise e.
Proof.
  destruct (at_least_two_submeshes plain_name) as [R [T [A [_ [_ P]]]]].
  split; [ | split; [ | split ] ].
  - apply (R hull xOz_Plane None 1%nat mirrored_hull 3%nat). reflexivity.
  - destruct (T hull [1; 0; 0]%Q (Int 2) None 1%nat row_of_hulls 4%nat eq_refl)
      as [n [_ [_ [_ H]]]]. exact H.
  - destruct (A hull [0; 0; 0]%Q (Int 3) None 1%nat ring_of_hulls 5%nat eq_refl)
      as [n [_ [_ [_ H]]]]. exact H.
  - apply P. intros n [= <-]. reflexivity.
Defined.

(** C7 fails on the code.  Two symmetries of one repetition each have two
    sub-meshes each; their join has three, since [join] passes the number
    of sub-meshes where the constructor expects the number of
    repetitions. *)
Theorem join_adds_a_repetition :
  nb_submeshes pair_of_hulls = 2%nat
  /\ nb_submeshes pair_of_keels = 2%nat
  /\ exists self next',
       TranslationalSymmetry_join plain_name [pair_of_hulls; pair_of_keels] 30%nat
         = Return (self, next')
       /\ isinstance_TranslationalSymmetry self = true
       /\ nb_submeshes self = 3%nat.
Proof.
  split; [ reflexivity | ]. split; [ reflexivity | ].
  eexists. eexists. split; [ vm_compute; reflexivity | ]. split; reflexivity.
Qed.


(** ** The further properties on the sample bodies *)

Lemma reflection_symmetry_halves_of_hull :
  nth_error (normal xOz_Plane) 2 = Some 0%Q
  /\ (0 == 0)%Q
  /\ exists nm,
       ReflectionSymmetry_init plain_name hull xOz_Plane None 1%nat
       = Return (Collection 1 nm (ReflectionSymmetry xOz_Plane) [hull; mirror_of_hull],
                 3%nat).
Proof.
  split; [ reflexivity | ]. split; [ reflexivity | ].
  destruct (reflection_symmetry_halves plain_name hull xOz_Plane None 1 0%Q eq_refl
              (Qeq_refl 0)) as [nm [E _]].
  exists nm. exact E.
Defined.


Lemma plain_mesh_is_evaluated_on_hull :
  build_matrices_with_symmetries same_parameters by_names tt hull ring_of_hulls tt
  = Return (Evaluated ("hull", "hull"), Evaluated ("hull", "hull")).
Proof.
  exact (proj2 (plain_mesh_is_evaluated unit unit (string * string) same_parameters by_names
                  tt tt hull ring_of_hulls (or_introl eq_refl))).
Defined.

Lemma recursion_within_height_on_mirrored_hull :
  (height mirrored_hull <= 5)%nat
  /\ assemble unit unit (string * string) same_parameters by_names 5 tt tt
       mirrored_hull mirrored_hull
     = Some (build_matrices_with_symmetries same_parameters by_names tt
               mirrored_hull mirrored_hull tt).
Proof.
  assert (H : (height mirrored_hull <= 5)%nat) by (apply Nat.leb_le; reflexivity).
  split; [ exact H | ].
  exact (recursion_within_height unit unit (string * string) same_parameters by_names
           tt tt 5 mirrored_hull mirrored_hull H).
Defined.

Lemma recursive_calls_on_first_submesh_of_mirrored_hull :
  nth_error (submeshes mirrored_hull) 0 = Some hull
  /\ In mirror_of_hull (submeshes mirrored_hull).
Proof.
  destruct (recursive_calls_on_first_submesh unit unit (string * string) same_parameters
              by_names tt tt mirrored_hull mirrored_hull
              (returning (fun a b => evaluated (by_names tt a b tt))) hull mirror_of_hull)
    as [F [I _]].
  - right. left. reflexivity.
  - split; [ exact F | exact I ].
Defined.

Lemma matched_pair_on_ring_of_hulls :
  exists S_matrix V_matrix : matrix (string * string),
    build_matrices_with_symmetries same_parameters by_names tt ring_of_hulls ring_of_hulls tt
      = Return (S_matrix, V_matrix)
    /\ layout_of (string * string) S_matrix = layout_of (string * string) V_matrix.
Proof.
  eexists. eexists. split; [ reflexivity | ].
  apply (matched_pair unit unit (string * string) same_parameters by_names tt tt
           ring_of_hulls ring_of_hulls). reflexivity.
Defined.

Lemma complete_meshes_raise_no_IndexError_on_rings :
  complete ring_of_hulls = true
  /\ complete row_of_hulls = true
  /\ build_matrices_with_symmetries same_parameters by_names tt
       ring_of_hulls row_of_hulls tt <> Raise IndexError.
Proof.
  split; [ reflexivity | ]. split; [ reflexivity | ].
  exact (complete_meshes_raise_no_IndexError unit unit (string * string) same_parameters
           by_names tt tt ring_of_hulls row_of_hulls eq_refl eq_refl).
Defined.

Lemma blocks_of_plain_slices_of_row_of_hulls :
  nth_error (submeshes row_of_hulls) 0 = Some hull
  /\ build_matrices_with_symmetries same_parameters by_names tt row_of_hulls row_of_hulls tt
     = Return (BlockToeplitzMatrix
                 (map (fun s => Evaluated (fst (by_names tt hull s tt)))
                      (submeshes row_of_hulls)),
               BlockToeplitzMatrix
                 (map (fun s => Evaluated (snd (by_names tt hull s tt)))
                      (submeshes row_of_hulls))).
Proof.
  split; [ reflexivity | ].
  exact (blocks_of_plain_slices unit unit (string * string) same_parameters by_names tt tt
           row_of_hulls row_of_hulls 0 "hull" _ eq_refl).
Defined.

Lemma join_refuses_on_samples :
  TranslationalSymmetry_join plain_name [] 30%nat = Raise IndexError
  /\ TranslationalSymmetry_join plain_name [pair_of_hulls; ring_of_hulls] 30%nat
     = Raise AssertionError
  /\ TranslationalSymmetry_join plain_name [pair_of_hulls; row_of_hulls] 30%nat
     = Raise AssertionError.
Proof.
  destruct (join_refuses plain_name 30) as [E [C [_ N]]].
  split; [ exact E | ]. split.
  - apply (C [pair_of_hulls; ring_of_hulls] ring_of_hulls); [ right; now left | reflexivity ].
  - apply (N 6%nat "hulls" [1; 0; 0]%Q (submeshes pair_of_hulls) [row_of_hulls] row_of_hulls);
      [ reflexivity | now left | discriminate ].
Defined.

Lemma join_returns_on_pairs :
  exists self next',
    TranslationalSymmetry_join plain_name [pair_of_hulls; pair_of_keels] 30%nat
      = Return (self, next')
    /\ translation_of self = Return [1; 0; 0]%Q
    /\ nb_submeshes self = (nb_submeshes pair_of_hulls + 1)%nat.
Proof.
  destruct (TranslationalSymmetry_join plain_name [pair_of_hulls; pair_of_keels] 30%nat)
    as [[self next'] | e] eqn:E; [ | vm_compute in E; discriminate E ].
  destruct (join_returns plain_name _ _ _ _ E) as [first [F [_ [_ [T N]]]]].
  injection F as <-. exists self, next'. split; [ reflexivity | ]. split; assumption.
Defined.

Lemma from_profile_small_nphi_on_square_ring :
  shape (profile_array_of (points square_profile) []) = [5%nat; 3%nat]
  /\ AxialSymmetry_from_profile plain_name (points square_profile) [] [0; 0; 0]%Q
       (Int 0) None 1%nat = Raise ZeroDivisionError
  /\ AxialSymmetry_from_profile plain_name (points square_profile) [] [0; 0; 0]%Q
       (Int 1) None 1%nat = Raise AssertionError
  /\ AxialSymmetry_from_profile plain_name (points square_profile) [] [0; 0; 0]%Q
       (Float 4) None 1%nat = Raise AssertionError.
Proof.
  split; [ reflexivity | ].
  destruct (from_profile_small_nphi plain_name (points square_profile) [] [0; 0; 0]%Q
              None 1 5 eq_refl) as [Z0 [_ [S F]]].
  split; [ exact Z0 | ]. split; [ apply S; [ reflexivity | discriminate ] | ].
  apply F. discriminate.
Defined.


Lemma from_profile_of_function_on_cylinder :
  2 <= 4
  /\ List.length [0; 0; 0]%Q = 3%nat
  /\ exists self next',
       AxialSymmetry_from_profile plain_name (function (fun z => 1%Q)) [0; -1 # 1]%Q
         [0; 0; 0]%Q (Int 4) None 1%nat = Return (self, next')
       /\ nb_submeshes self = 4%nat.
Proof.
  split; [ discriminate | ]. split; [ reflexivity | ].
  destruct (from_profile_of_function plain_name (fun z => 1%Q) [0; -1 # 1]%Q [0; 0; 0]%Q 4
              None 1) as [_ [_ [self [next' [E N]]]]]; [ discriminate | reflexivity | ].
  exists self, next'. split; [ exact E | exact N ].
Defined.

Lemma constructors_make_complete_meshes_on_hull :
  complete mirrored_hull = true
  /\ complete row_of_hulls = true
  /\ complete ring_of_hulls = true.
Proof.
  destruct (constructors_make_complete_meshes plain_name) as [R [T A]].
  split; [ | split ].
  - apply (R hull xOz_Plane None 1%nat mirrored_hull 3%nat); reflexivity.
  - apply (T hull [1; 0; 0]%Q (Int 2) None 1%nat row_of_hulls 4%nat); reflexivity.
  - apply (A hull [0; 0; 0]%Q (Int 3) None 1%nat ring_of_hulls 5%nat); reflexivity.
Defined.


Lemma axial_symmetry_on_itself_for_ring_of_hulls :
  complete hull = true
  /\ dispatch same_parameters ring_of_hulls ring_of_hulls = rotation_symmetry
  /\ exists S_blocks V_blocks : list (matrix (string * string)),
       build_matrices_with_symmetries same_parameters by_names tt ring_of_hulls ring_of_hulls tt
         = Return (BlockCirculantMatrix S_blocks 4, BlockCirculantMatrix V_blocks 4)
       /\ List.length S_blocks = 3%nat.
Proof.
  split; [ reflexivity | ].
  destruct (axial_symmetry_on_itself plain_name unit unit (string * string)
              same_parameters by_names tt tt hull [0; 0; 0]%Q (Int 3) None 1
              ring_of_hulls 5 eq_refl eq_refl) as [D [n [Sb [Vb [N [E [LS _]]]]]]].
  split; [ exact D | ]. exists Sb, Vb. injection N as <-. split; [ exact E | exact LS ].
Defined.

Lemma reflection_symmetry_on_itself_for_mirrored_hull :
  complete hull = true
  /\ same_parameters xOz_Plane xOz_Plane = true
  /\ dispatch same_parameters mirrored_hull mirrored_hull = mirror_symmetry
  /\ exists S_a S_b V_a V_b : matrix (string * string),
       build_matrices_with_symmetries same_parameters by_names tt
         mirrored_hull mirrored_hull tt
       = Return (BlockToeplitzMatrix [S_a; S_b], BlockToeplitzMatrix [V_a; V_b]).
Proof.
  split; [ reflexivity | ]. split; [ reflexivity | ].
  exact (proj1 (reflection_symmetry_on_itself plain_name unit unit (string * string)
                  same_parameters by_names tt tt hull xOz_Plane None 1
                  mirrored_hull 3 eq_refl eq_refl) eq_refl).
Defined.
